(** * Tango: tags attached to entities, persisted in a relational store

    A shallow embedding of [tags.go] (package [tango]): the handles [Tags],
    [TagBag] and [Tag], and the operations [Tag.Get], [Tag.Set],
    [Tag.Delete] and [TagBag.Tags].

    The package is a thin client of two libraries that are not part of it:
    [encoding/json] and [database/sql] over SQLite.  Both are modelled here
    as far as [tags.go] uses them:
    - [Json]: the JSON text of Go values and the decoding of JSON text into
      a typed variable, for the Go kinds bool, int, string, pointer, slice,
      map with string keys, and chan (a kind without a JSON form);
    - [Sql]: one table [tags] with the schema of the package comment, the
      four statements of [tags.go], transactions, and a schedule of driver
      failures. *)

From Stdlib Require Import List String Ascii ZArith NArith Lia Bool.
From Stdlib Require Import Permutation Sorted.
From Stdlib Require Import DecimalString DecimalZ DecimalPos DecimalFacts.
Import ListNotations.

Set Warnings "-register-all".

#[local] Open Scope list_scope.
#[local] Open Scope Z_scope.

(** Go's [[]byte]. *)
Definition bytes := list ascii.

(** The values of Go's [error] that the operations can return. *)
Inductive error : Type :=
| DriverError (code : Z)     (* database/sql or the driver: the store failed *)
| ScanNullError              (* sql: Scan of NULL into a string *)
| UnsupportedTypeError       (* json.Marshal: the kind has no JSON form *)
| SyntaxError                (* json.Unmarshal: the text is not JSON *)
| UnmarshalTypeError.        (* json.Unmarshal: the JSON value does not fit *)

(** Go's [(T, error)]. *)
Inductive result (A : Type) : Type :=
| Ok (a : A)
| Err (e : error).
Arguments Ok {A} a.
Arguments Err {A} e.

(** * encoding/json

    [Marshal] and [Unmarshal] for values made of nil, booleans, integers,
    strings, pointers, slices and maps with string keys, and for variables
    of these types.  Floating-point numbers, structs, byte slices and
    variables of interface type (which [Unmarshal] fills with [float64],
    [[]any] and [map[string]any], as in some tests of the package) are
    left out. *)
Module Json.

#[local] Open Scope char_scope.

(** ** JSON values and their text *)

Inductive json : Type :=
| JNull
| JBool (b : bool)
| JNumber (lit : bytes)
| JString (s : string)
| JArray (l : list json)
| JObject (m : list (string * json)).

Definition hex_digit (n : N) : ascii :=
  nth (N.to_nat n)
      ["0"; "1"; "2"; "3"; "4"; "5"; "6"; "7"; "8"; "9";
       "a"; "b"; "c"; "d"; "e"; "f"] "0".

Definition escape_u00 (c : ascii) : bytes :=
  ["\"; "u"; "0"; "0";
   hex_digit (N_of_ascii c / 16); hex_digit (N_of_ascii c mod 16)].

(** One byte below 0x80 of a string, as [Marshal] writes it (HTML escaping
    is on).  Backspace and form feed are written in their short form, as
    Go does from 1.22 on; before, it wrote them like the other control
    bytes.  [parse_string] reads both forms. *)
Definition escape_byte (c : ascii) : bytes :=
  if (c =? "034") || (c =? "\") then ["\"; c]
  else if c =? "008" then ["\"; "b"]
  else if c =? "012" then ["\"; "f"]
  else if c =? "010" then ["\"; "n"]
  else if c =? "013" then ["\"; "r"]
  else if c =? "009" then ["\"; "t"]
  else if (N_of_ascii c <? 32)%N || (c =? "<") || (c =? ">") || (c =? "&")
       then escape_u00 c
  else [c].

(** A byte below 0x80. *)
Definition is_ascii (c : ascii) : bool :=
  match c with
  | Ascii _ _ _ _ _ _ _ b7 => negb b7
  end.

Definition between (lo hi : N) (c : ascii) : bool :=
  (lo <=? N_of_ascii c)%N && (N_of_ascii c <=? hi)%N.

(** The second byte that UTF-8 accepts after the first byte [c] of a
    sequence of three or four bytes: no code point written longer than
    needed, none from U+D800 to U+DFFF, none above U+10FFFF. *)
Definition second_byte (c c1 : ascii) : bool :=
  if c =? "224" then between 160 191 c1
  else if c =? "237" then between 128 159 c1
  else if c =? "240" then between 144 191 c1
  else if c =? "244" then between 128 143 c1
  else between 128 191 c1.

(** [utf8.DecodeRune] at the head of [s]: the number of bytes of the code
    point there, from 1 to 4, or 0 when the bytes are not UTF-8 (Go then
    reads U+FFFD and goes one byte on). *)
Definition rune_len (s : bytes) : nat :=
  match s with
  | [] => 0
  | c :: r =>
      if is_ascii c then 1
      else if between 194 223 c then
        match r with
        | c1 :: _ => if between 128 191 c1 then 2 else 0
        | _ => 0
        end
      else if between 224 239 c then
        match r with
        | c1 :: c2 :: _ =>
            if second_byte c c1 && between 128 191 c2 then 3 else 0
        | _ => 0
        end
      else if between 240 244 c then
        match r with
        | c1 :: c2 :: c3 :: _ =>
            if second_byte c c1 && between 128 191 c2 && between 128 191 c3
            then 4 else 0
        | _ => 0
        end
      else 0
  end.


(** The escape of U+FFFD, which [Marshal] writes for a byte that is not
    UTF-8. *)
Definition escape_fffd : bytes := ["\"; "u"; "f"; "f"; "f"; "d"].

(** The bytes of a string between the quotes: bytes below 0x80 as
    [escape_byte] says, U+2028 and U+2029 escaped, the other code points
    copied, and [escape_fffd] for every byte that is not UTF-8. *)
Fixpoint escape (s : bytes) : bytes :=
  match s with
  | [] => []
  | c :: r =>
      match rune_len s, r with
      | 1%nat, _ => escape_byte c ++ escape r
      | 2%nat, c1 :: r1 => c :: c1 :: escape r1
      | 3%nat, c1 :: c2 :: r2 =>
          if (c =? "226") && (c1 =? "128") && (c2 =? "168")
          then ["\"; "u"; "2"; "0"; "2"; "8"] ++ escape r2
          else if (c =? "226") && (c1 =? "128") && (c2 =? "169")
          then ["\"; "u"; "2"; "0"; "2"; "9"] ++ escape r2
          else c :: c1 :: c2 :: escape r2
      | 4%nat, c1 :: c2 :: c3 :: r3 => c :: c1 :: c2 :: c3 :: escape r3
      | _, _ => escape_fffd ++ escape r
      end
  end.

Definition quote (s : string) : bytes :=
  "034" :: escape (list_ascii_of_string s) ++ ["034"].

Section Print.
Variable print : json -> bytes.

Fixpoint print_elems (l : list json) : bytes :=
  match l with
  | [] => []
  | [j] => print j
  | j :: r => print j ++ "," :: print_elems r
  end.

Fixpoint print_members (m : list (string * json)) : bytes :=
  match m with
  | [] => []
  | [(k, j)] => quote k ++ ":" :: print j
  | (k, j) :: r => quote k ++ ":" :: print j ++ "," :: print_members r
  end.
End Print.

(** Compact JSON text, as [Marshal] writes it. *)
Fixpoint print (j : json) : bytes :=
  match j with
  | JNull => ["n"; "u"; "l"; "l"]
  | JBool true => ["t"; "r"; "u"; "e"]
  | JBool false => ["f"; "a"; "l"; "s"; "e"]
  | JNumber lit => lit
  | JString s => quote s
  | JArray l => "[" :: print_elems print l ++ ["]"]
  | JObject m => "{" :: print_members print m ++ ["}"]
  end.

(** ** Reading JSON text *)

Definition is_ws (c : ascii) : bool :=
  (c =? " ") || (c =? "009") || (c =? "010") || (c =? "013").

Fixpoint skip_ws (s : bytes) : bytes :=
  match s with
  | c :: r => if is_ws c then skip_ws r else s
  | [] => []
  end.

Definition is_digit (c : ascii) : bool :=
  (48 <=? N_of_ascii c)%N && (N_of_ascii c <=? 57)%N.

Fixpoint span_digits (s : bytes) : bytes * bytes :=
  match s with
  | c :: r =>
      if is_digit c then let (ds, r') := span_digits r in (c :: ds, r')
      else ([], s)
  | [] => ([], [])
  end.

Definition scan_exp (acc s : bytes) : option (bytes * bytes) :=
  match s with
  | e :: r =>
      if (e =? "e") || (e =? "E") then
        let (sg, r1) :=
          match r with
          | c :: r' => if (c =? "+") || (c =? "-") then ([c], r') else ([], r)
          | [] => ([], r)
          end in
        match span_digits r1 with
        | ([], _) => None
        | (ds, r2) => Some (acc ++ e :: sg ++ ds, r2)
        end
      else Some (acc, s)
  | [] => Some (acc, s)
  end.

Definition scan_frac (acc s : bytes) : option (bytes * bytes) :=
  match s with
  | c :: r =>
      if c =? "." then
        match span_digits r with
        | ([], _) => None
        | (ds, r') => scan_exp (acc ++ "." :: ds) r'
        end
      else scan_exp acc s
  | [] => scan_exp acc s
  end.

(** The digits before the fraction: [0], or a digit from 1 to 9 and more
    digits. *)
Definition scan_int (sign s : bytes) : option (bytes * bytes) :=
  match s with
  | c :: r =>
      if c =? "0" then scan_frac (sign ++ ["0"]) r
      else if is_digit c then
        let (ds, r') := span_digits r in scan_frac (sign ++ c :: ds) r'
      else None
  | [] => None
  end.

(** A number literal of the JSON grammar at the head of [s]. *)
Definition scan_number (s : bytes) : option (bytes * bytes) :=
  match s with
  | c :: r => if c =? "-" then scan_int ["-"] r else scan_int [] s
  | [] => None
  end.

Definition hex_val (c : ascii) : option N :=
  let n := N_of_ascii c in
  if (48 <=? n)%N && (n <=? 57)%N then Some (n - 48)%N
  else if (97 <=? n)%N && (n <=? 102)%N then Some (n - 87)%N
  else if (65 <=? n)%N && (n <=? 70)%N then Some (n - 55)%N
  else None.

Definition hex4 (a b c d : ascii) : option N :=
  match hex_val a, hex_val b, hex_val c, hex_val d with
  | Some x, Some y, Some z, Some w => Some (((x * 16 + y) * 16 + z) * 16 + w)%N
  | _, _, _, _ => None
  end.

(** UTF-8 of a code point. *)
Definition utf8 (r : N) : bytes :=
  if (r <? 128)%N then [ascii_of_N r]
  else if (r <? 2048)%N then
    [ascii_of_N (192 + r / 64); ascii_of_N (128 + r mod 64)]
  else if (r <? 65536)%N then
    [ascii_of_N (224 + r / 4096); ascii_of_N (128 + (r / 64) mod 64);
     ascii_of_N (128 + r mod 64)]
  else
    [ascii_of_N (240 + r / 262144); ascii_of_N (128 + (r / 4096) mod 64);
     ascii_of_N (128 + (r / 64) mod 64); ascii_of_N (128 + r mod 64)].

Definition is_surrogate (r : N) : bool := (55296 <=? r)%N && (r <? 57344)%N.

(** The low half of a surrogate pair at the head of [s], with what follows. *)
Definition low_surrogate (hi : N) (s : bytes) : option N :=
  match s with
  | "\" :: "u" :: a :: b :: c :: d :: _ =>
      match hex4 a b c d with
      | Some lo =>
          if (hi <? 56320)%N && (56320 <=? lo)%N && (lo <? 57344)%N
          then Some (65536 + (hi - 55296) * 1024 + (lo - 56320))%N
          else None
      | None => None
      end
  | _ => None
  end.

(** The bytes [p] before the bytes of a string that was read. *)
Definition cons_to (p : bytes) (o : option (bytes * bytes))
  : option (bytes * bytes) :=
  match o with
  | Some (str, r) => Some (p ++ str, r)
  | None => None
  end.

(** The string literal whose opening quote was just read: its bytes and
    the text after the closing quote.  Code points from U+0080 on are
    copied, and a byte that is not UTF-8 becomes U+FFFD. *)
Fixpoint parse_string (s : bytes) : option (bytes * bytes) :=
  match s with
  | [] => None
  | c :: r =>
      if c =? "034" then Some ([], r)
      else if c =? "\" then
        match r with
        | [] => None
        | e :: r =>
            if (e =? "034") || (e =? "\") || (e =? "/")
            then cons_to [e] (parse_string r)
            else if e =? "b" then cons_to ["008"] (parse_string r)
            else if e =? "f" then cons_to ["012"] (parse_string r)
            else if e =? "n" then cons_to ["010"] (parse_string r)
            else if e =? "r" then cons_to ["013"] (parse_string r)
            else if e =? "t" then cons_to ["009"] (parse_string r)
            else if e =? "u" then
              match r with
              | a :: b :: c :: d :: r' =>
                  match hex4 a b c d with
                  | Some code =>
                      if is_surrogate code then
                        match low_surrogate code r', r' with
                        | Some rune, _ :: _ :: _ :: _ :: _ :: _ :: r'' =>
                            cons_to (utf8 rune) (parse_string r'')
                        | _, _ => cons_to (utf8 65533) (parse_string r')
                        end
                      else cons_to (utf8 code) (parse_string r')
                  | None => None
                  end
              | _ => None
              end
            else None
        end
      else if (N_of_ascii c <? 32)%N then None
      else
        match rune_len s, r with
        | 1%nat, _ => cons_to [c] (parse_string r)
        | 2%nat, c1 :: r1 => cons_to [c; c1] (parse_string r1)
        | 3%nat, c1 :: c2 :: r2 => cons_to [c; c1; c2] (parse_string r2)
        | 4%nat, c1 :: c2 :: c3 :: r3 =>
            cons_to [c; c1; c2; c3] (parse_string r3)
        | _, _ => cons_to (utf8 65533) (parse_string r)
        end
  end.

(** The text after the word [w], when [s] starts with it. *)
Fixpoint strip (w s : bytes) : option bytes :=
  match w, s with
  | [], _ => Some s
  | a :: w', c :: s' => if a =? c then strip w' s' else None
  | _ :: _, [] => None
  end.

Definition starts_with (c : ascii) (s : bytes) : bool :=
  match s with
  | c' :: _ => c' =? c
  | [] => false
  end.

(** One JSON value at the head of the text, after white space.  [n] bounds
    the number of nested calls; [parse] below gives it the length of the
    text. *)
Fixpoint parse_value (n : nat) (s : bytes) {struct n} : option (json * bytes) :=
  match n with
  | O => None
  | S n =>
      match skip_ws s with
      | [] => None
      | c :: r =>
          if c =? "n" then option_map (pair JNull) (strip ["u"; "l"; "l"] r)
          else if c =? "t" then
            option_map (pair (JBool true)) (strip ["r"; "u"; "e"] r)
          else if c =? "f" then
            option_map (pair (JBool false)) (strip ["a"; "l"; "s"; "e"] r)
          else if c =? "034" then
            match parse_string r with
            | Some (str, r') => Some (JString (string_of_list_ascii str), r')
            | None => None
            end
          else if c =? "[" then
            if starts_with "]" (skip_ws r) then Some (JArray [], tl (skip_ws r))
            else
              match parse_elems n r with
              | Some (l, r') => Some (JArray l, r')
              | None => None
              end
          else if c =? "{" then
            if starts_with "}" (skip_ws r) then Some (JObject [], tl (skip_ws r))
            else
              match parse_members n r with
              | Some (m, r') => Some (JObject m, r')
              | None => None
              end
          else
            match scan_number (c :: r) with
            | Some (lit, r') => Some (JNumber lit, r')
            | None => None
            end
      end
  end

with parse_elems (n : nat) (s : bytes) {struct n} : option (list json * bytes) :=
  match n with
  | O => None
  | S n =>
      match parse_value n s with
      | Some (j, r) =>
          match skip_ws r with
          | c :: r' =>
              if c =? "," then
                match parse_elems n r' with
                | Some (l, r'') => Some (j :: l, r'')
                | None => None
                end
              else if c =? "]" then Some ([j], r')
              else None
          | [] => None
          end
      | None => None
      end
  end

with parse_members (n : nat) (s : bytes) {struct n}
  : option (list (string * json) * bytes) :=
  match n with
  | O => None
  | S n =>
      match skip_ws s with
      | q :: r =>
          if q =? "034" then
            match parse_string r with
            | Some (k, r1) =>
                match skip_ws r1 with
                | c :: r2 =>
                    if c =? ":" then
                      match parse_value n r2 with
                      | Some (j, r3) =>
                          match skip_ws r3 with
                          | d :: r4 =>
                              if d =? "," then
                                match parse_members n r4 with
                                | Some (m, r5) =>
                                    Some ((string_of_list_ascii k, j) :: m, r5)
                                | None => None
                                end
                              else if d =? "}"
                              then Some ([(string_of_list_ascii k, j)], r4)
                              else None
                          | [] => None
                          end
                      | None => None
                      end
                    else None
                | [] => None
                end
            | None => None
            end
          else None
      | [] => None
      end
  end.

(** The scanner's limit on nesting ([maxNestingDepth]). *)
Definition maxNestingDepth : Z := 10000.

Fixpoint depth (j : json) : nat :=
  match j with
  | JArray l => S (fold_right (fun j d => Nat.max (depth j) d) O l)
  | JObject m => S (fold_right (fun kj d => Nat.max (depth (snd kj)) d) O m)
  | _ => O
  end.

(** The whole text is one JSON value, with white space around it at most,
    nested no deeper than the limit ([checkValid]). *)
Definition parse (s : bytes) : option json :=
  match parse_value (S (List.length s)) s with
  | Some (j, r) =>
      match skip_ws r with
      | [] => if (Z.of_nat (depth j) <=? maxNestingDepth)%Z then Some j else None
      | _ :: _ => None
      end
  | None => None
  end.

(** ** Go values *)

(** The static types of the variables that [Unmarshal] fills. *)
Inductive gotype : Type :=
| TBool
| TInt                      (* int, 64 bits *)
| TString
| TPtr (t : gotype)         (* *T *)
| TSlice (t : gotype)       (* []T *)
| TMap (t : gotype)         (* map[string]T *)
| TChan.

(** What an [any] holds.  A map is the list of its entries in ascending
    order of the keys. *)
Inductive any : Type :=
| VNil                      (* nil: interface, pointer, slice or map *)
| VBool (b : bool)
| VInt (n : Z)
| VString (s : string)
| VPtr (v : any)            (* a pointer that is not nil, and its target *)
| VSlice (l : list any)
| VMap (m : list (string * any))
| VChan.

Definition zero (t : gotype) : any :=
  match t with
  | TBool => VBool false
  | TInt => VInt 0
  | TString => VString EmptyString
  | TPtr _ | TSlice _ | TMap _ | TChan => VNil
  end.

(** The variable that the argument [out] of [Unmarshal] points to. *)
Record slot : Type := { slot_type : gotype; slot_val : any }.

(** ** Marshal *)

Definition int_lit (n : Z) : bytes :=
  list_ascii_of_string (NilEmpty.string_of_int (Z.to_int n)).

(** Object members are written in ascending order of their keys. *)
Fixpoint insert_member (k : string) (j : json) (m : list (string * json))
  : list (string * json) :=
  match m with
  | [] => [(k, j)]
  | (k', j') :: r =>
      if String.leb k k' then (k, j) :: m else (k', j') :: insert_member k j r
  end.

Definition sort_members (m : list (string * json)) : list (string * json) :=
  fold_right (fun kj acc => insert_member (fst kj) (snd kj) acc) [] m.

Section ToJson.
Variable to_json : any -> result json.

Fixpoint to_json_elems (l : list any) : result (list json) :=
  match l with
  | [] => Ok []
  | v :: r =>
      match to_json v, to_json_elems r with
      | Ok j, Ok js => Ok (j :: js)
      | Err e, _ => Err e
      | _, Err e => Err e
      end
  end.

Fixpoint to_json_members (m : list (string * any))
  : result (list (string * json)) :=
  match m with
  | [] => Ok []
  | (k, v) :: r =>
      match to_json v, to_json_members r with
      | Ok j, Ok js => Ok ((k, j) :: js)
      | Err e, _ => Err e
      | _, Err e => Err e
      end
  end.
End ToJson.

Fixpoint to_json (v : any) : result json :=
  match v with
  | VNil => Ok JNull
  | VBool b => Ok (JBool b)
  | VInt n => Ok (JNumber (int_lit n))
  | VString s => Ok (JString s)
  | VPtr v => to_json v
  | VSlice l =>
      match to_json_elems to_json l with
      | Ok js => Ok (JArray js)
      | Err e => Err e
      end
  | VMap m =>
      match to_json_members to_json m with
      | Ok ms => Ok (JObject (sort_members ms))
      | Err e => Err e
      end
  | VChan => Err UnsupportedTypeError
  end.

(** [json.Marshal]. *)
Definition Marshal (v : any) : result bytes :=
  match to_json v with
  | Ok j => Ok (print j)
  | Err e => Err e
  end.

(** ** Unmarshal *)

(** [strconv.ParseInt(lit, 10, 64)] on a number literal. *)
Definition int_of_lit (lit : bytes) : option Z :=
  match NilEmpty.int_of_string (string_of_list_ascii lit) with
  | Some d =>
      let n := Z.of_int d in
      if ((- 2 ^ 63 <=? n) && (n <? 2 ^ 63))%Z then Some n else None
  | None => None
  end.

(** Storing under a key of a map: an entry with the key is replaced, the
    other entries are kept. *)
Fixpoint map_store (k : string) (v : any) (m : list (string * any))
  : list (string * any) :=
  match m with
  | [] => [(k, v)]
  | (k', v') :: r =>
      match String.compare k k' with
      | Lt => (k, v) :: m
      | Eq => (k, v) :: r
      | Gt => (k', v') :: map_store k v r
      end
  end.

(** The first error is the one [Unmarshal] reports; decoding goes on. *)
Definition first_error (e1 e2 : option error) : option error :=
  match e1 with
  | Some e => Some e
  | None => e2
  end.

Section Decode.
Variable decode : json -> gotype -> any -> any * option error.
Variable t : gotype.

(** The elements of an array, into the elements [olds] that the slice
    has and into fresh ones after them. *)
Fixpoint decode_elems (l : list json) (olds : list any)
  : list any * option error :=
  match l with
  | [] => ([], None)
  | j :: r =>
      let (o, os) :=
        match olds with
        | o :: os => (o, os)
        | [] => (zero t, [])
        end in
      let (v, e) := decode j t o in
      let (vs, e') := decode_elems r os in
      (v :: vs, first_error e e')
  end.

(** The members of an object, each into a fresh variable that is then
    stored under its key in the map [acc]. *)
Fixpoint decode_members (m : list (string * json)) (acc : list (string * any))
  : list (string * any) * option error :=
  match m with
  | [] => (acc, None)
  | (k, j) :: r =>
      let (v, e) := decode j t (zero t) in
      let (ms, e') := decode_members r (map_store k v acc) in
      (ms, first_error e e')
  end.
End Decode.

(** A JSON value stored into a variable of type [t] that holds [old]: the
    new content, and the first mismatch if there is one.
    - [null] sets a pointer, slice or map to nil and leaves anything else;
    - pointers are followed, and allocated where nil;
    - the elements of an array are decoded into the elements the slice
      already has, and into fresh ones beyond its length;
    - the members of an object are stored into the map the variable
      already has, whose other entries stay;
    - a value that does not fit leaves the variable as it is. *)
Fixpoint decode (j : json) (t : gotype) (old : any) {struct j}
  : any * option error :=
  match j with
  | JNull =>
      (match t with
       | TPtr _ | TSlice _ | TMap _ => VNil
       | _ => old
       end, None)
  | _ =>
      (fix indirect (t : gotype) (old : any) {struct t} : any * option error :=
         match t with
         | TPtr t' =>
             let target := match old with VPtr p => p | _ => zero t' end in
             let (v, e) := indirect t' target in (VPtr v, e)
         | _ =>
             match j, t with
             | JBool b, TBool => (VBool b, None)
             | JNumber lit, TInt =>
                 match int_of_lit lit with
                 | Some n => (VInt n, None)
                 | None => (old, Some UnmarshalTypeError)
                 end
             | JString s, TString => (VString s, None)
             | JArray l, TSlice t' =>
                 let (vs, e) :=
                   decode_elems decode t' l
                     (match old with VSlice o => o | _ => [] end) in
                 (VSlice vs, e)
             | JObject m, TMap t' =>
                 let (ms, e) :=
                   decode_members decode t' m
                     (match old with VMap o => o | _ => [] end) in
                 (VMap ms, e)
             | _, _ => (old, Some UnmarshalTypeError)
             end
         end) t old
  end.

(** [json.Unmarshal(data, out)], [out] pointing to the variable [out]: the
    variable afterwards, and the error.  Text that is not JSON leaves the
    variable untouched. *)
Definition Unmarshal (data : bytes) (out : slot) : slot * option error :=
  match parse data with
  | None => (out, Some SyntaxError)
  | Some j =>
      let (v, e) := decode j (slot_type out) (slot_val out) in
      ({| slot_type := slot_type out; slot_val := v |}, e)
  end.

(** ** The values that come back as they went in *)










(** The JSON value of a value that [Marshal] accepts, for a map whose
    entries are in order. *)
Fixpoint tree (v : any) : json :=
  match v with
  | VNil | VChan => JNull
  | VBool b => JBool b
  | VInt n => JNumber (int_lit n)
  | VString s => JString s
  | VPtr v => tree v
  | VSlice l => JArray (map tree l)
  | VMap m => JObject (map (fun kv => (fst kv, tree (snd kv))) m)
  end.




(** The types whose variables [null] sets to nil. *)
Definition nullable (t : gotype) : bool :=
  match t with
  | TPtr _ | TSlice _ | TMap _ => true
  | _ => false
  end.

(** The results of the reader [f] under the bound [m] take bytes off the
    text and stay under every bound from the number of these bytes on. *)
Definition consumes {A : Type} (f : nat -> bytes -> option (A * bytes))
           (m : nat) : Prop :=
  forall s a r,
    f m s = Some (a, r) ->
    (List.length r < List.length s)%nat /\
    forall n, (List.length s - List.length r <= n)%nat -> f n s = Some (a, r).




(** Induction on a value, with the property at hand for the elements of a
    slice and the values of a map. *)
Section any_induction.
Variable P : any -> Prop.
Hypothesis HNil : P VNil.
Hypothesis HBool : forall b, P (VBool b).
Hypothesis HInt : forall n, P (VInt n).
Hypothesis HString : forall s, P (VString s).
Hypothesis HPtr : forall v, P v -> P (VPtr v).
Hypothesis HSlice : forall l, Forall P l -> P (VSlice l).
Hypothesis HMap : forall m, Forall (fun kv => P (snd kv)) m -> P (VMap m).
Hypothesis HChan : P VChan.

End any_induction.

End Json.

(** * database/sql over SQLite *)
Module Sql.

(** ** The table

    <<
    CREATE TABLE IF NOT EXISTS tags(
      id INTEGER PRIMARY KEY,
      universe VARCHAR(64) NOT NULL,
      entity VARCHAR(64) NOT NULL,
      key VARCHAR(64) NOT NULL,
      value TEXT
    );
    CREATE INDEX IF NOT EXISTS tags_entities ON TAGS(universe, entity);
    CREATE UNIQUE INDEX IF NOT EXISTS tags_id ON tags(universe, entity, key);
    >>
    SQLite does not enforce the lengths, and [NOT NULL] admits the empty
    string. *)
Record Row : Type := {
  id : Z;
  universe : string;
  entity : string;
  key : string;
  value : option string          (* [None] is SQL NULL *)
}.

(** The statements that [tags.go] prepares. *)
Inductive statement : Type :=
| UpsertValue   (* INSERT INTO tags (universe, entity, key, value)
                   VALUES(?, ?, ?, ?)
                   ON CONFLICT(universe, entity, key)
                   DO UPDATE SET value=excluded.value *)
| SelectValue   (* SELECT value FROM tags
                   WHERE universe = ? AND entity = ? AND key = ? *)
| DeleteRow     (* DELETE FROM tags
                   WHERE universe = ? AND entity = ? AND key = ? *)
| SelectKeys.   (* SELECT key FROM tags WHERE universe = ? AND entity = ? *)

(** How the engine reads the rows of a pair for a [SELECT] that asks for
    no order: from the table (or through [tags_entities]), in the order of
    the ids, or from [tags_id], in the order of the keys.  SQL leaves the
    choice to the engine; SQLite takes [tags_id], which covers the query
    of [tagKeys]. *)
Inductive scan : Type :=
| TableScan
| IndexScan.

(** The store: the rows of the table in the order of their ids; the rows
    as the open transaction sees them, if one is open; the calls that are
    going to fail, in the order of the calls ([None] and a schedule that
    has run out mean success); and the way the engine reads the rows of a
    pair.  The schedule covers [Begin], [Prepare], [Query], [Next],
    [Scan], [Exec] and [Commit]; the deferred [Close] and [Rollback]
    calls, which run once the results of an operation are settled, are
    not in it and always succeed here. *)
Record DB : Type := {
  table : list Row;
  pending : option (list Row);
  faults : list (option error);
  plan : scan
}.

Definition in_bag (u e : string) (r : Row) : bool :=
  String.eqb (universe r) u && String.eqb (entity r) e.

Definition is_tag (u e k : string) (r : Row) : bool :=
  in_bag u e r && String.eqb (key r) k.

(** The id of a new row: one more than the largest in use. *)
Definition next_id (t : list Row) : Z :=
  1 + fold_right Z.max 0 (map id t).

Definition set_value (v : string) (r : Row) : Row :=
  {| id := id r; universe := universe r; entity := entity r; key := key r;
     value := Some v |}.

Definition upsert (u e k v : string) (t : list Row) : list Row :=
  if existsb (is_tag u e k) t
  then map (fun r => if is_tag u e k r then set_value v r else r) t
  else t ++ [{| id := next_id t; universe := u; entity := e; key := k;
                value := Some v |}].

Definition delete (u e k : string) (t : list Row) : list Row :=
  filter (fun r => negb (is_tag u e k r)) t.

Definition select_value (u e k : string) (t : list Row) : list (option string) :=
  map value (filter (is_tag u e k) t).

Fixpoint insert_by_key (r : Row) (l : list Row) : list Row :=
  match l with
  | [] => [r]
  | r' :: l' =>
      if String.leb (key r) (key r') then r :: l else r' :: insert_by_key r l'
  end.

(** The entries of the index [tags_id] under the prefix [(u, e)]: the rows
    of the pair in ascending order of [key], bytewise. *)
Definition tags_id_range (u e : string) (t : list Row) : list Row :=
  fold_right insert_by_key [] (filter (in_bag u e) t).

(** The rows of the pair in the order in which the engine reads them. *)
Definition scan_rows (p : scan) (u e : string) (t : list Row) : list Row :=
  match p with
  | TableScan => filter (in_bag u e) t
  | IndexScan => tags_id_range u e t
  end.

(** [SelectKeys] has no [ORDER BY]: the keys come in the order in which the
    engine reads the rows.  [TestTagList] relies on SQLite reading them
    from [tags_id]: it inserts [string], then [number], and expects
    [number] before [string]. *)
Definition select_keys (p : scan) (u e : string) (t : list Row)
  : list (option string) :=
  map (fun r => Some (key r)) (scan_rows p u e t).

(** ** The calls *)

(** A call of the schedule takes its next entry. *)
Definition tick (db : DB) : option error * DB :=
  match faults db with
  | [] => (None, db)
  | f :: fs =>
      (f, {| table := table db; pending := pending db; faults := fs; plan := plan db |})
  end.

Record Stmt : Type := { query : statement }.

(** The rows of a result, of one column: the row under the cursor and the
    rows to come. *)
Record Rows : Type := {
  current : option (option string);
  remaining : list (option string)
}.

Definition closed : Rows := {| current := None; remaining := [] |}.

(** [db.Prepare] and [tx.Prepare]. *)
Definition Prepare (q : statement) (db : DB) : result Stmt * DB :=
  match tick db with
  | (Some err, db) => (Err err, db)
  | (None, db) => (Ok {| query := q |}, db)
  end.

(** [stmt.Query], outside a transaction: it reads the table. *)
Definition Query (stmt : Stmt) (args : list string) (db : DB)
  : result Rows * DB :=
  match tick db with
  | (Some err, db) => (Err err, db)
  | (None, db) =>
      match query stmt, args with
      | SelectValue, [u; e; k] =>
          (Ok {| current := None; remaining := select_value u e k (table db) |},
           db)
      | SelectKeys, [u; e] =>
          (Ok {| current := None; remaining := select_keys (plan db) u e (table db) |},
           db)
      | _, _ => (Err (DriverError 0), db)
      end
  end.

(** [rs.Next]: [false] at the end of the rows, and also when the driver
    fails; the failure is kept for [rs.Err], which [tags.go] never calls. *)
Definition Next (rs : Rows) (db : DB) : bool * Rows * DB :=
  match tick db with
  | (Some _, db) => (false, closed, db)
  | (None, db) =>
      match remaining rs with
      | [] => (false, closed, db)
      | c :: r => (true, {| current := Some c; remaining := r |}, db)
      end
  end.

(** [rs.Scan(&s)] with [s] a string: NULL does not convert. *)
Definition Scan (rs : Rows) (db : DB) : result string * DB :=
  match tick db with
  | (Some err, db) => (Err err, db)
  | (None, db) =>
      match current rs with
      | Some (Some s) => (Ok s, db)
      | Some None => (Err ScanNullError, db)
      | None => (Err (DriverError 0), db)
      end
  end.

(** [db.Begin]. *)
Definition Begin (db : DB) : result unit * DB :=
  match tick db with
  | (Some err, db) => (Err err, db)
  | (None, db) =>
      (Ok tt, {| table := table db; pending := Some (table db);
                 faults := faults db; plan := plan db |})
  end.

(** [stmt.Exec] in the open transaction. *)
Definition Exec (stmt : Stmt) (args : list string) (db : DB)
  : result unit * DB :=
  match tick db with
  | (Some err, db) => (Err err, db)
  | (None, db) =>
      let change (f : list Row -> list Row) :=
        match pending db with
        | Some t =>
            (Ok tt, {| table := table db; pending := Some (f t);
                       faults := faults db; plan := plan db |})
        | None => (Err (DriverError 0), db)
        end in
      match query stmt, args with
      | UpsertValue, [u; e; k; v] => change (upsert u e k v)
      | DeleteRow, [u; e; k] => change (delete u e k)
      | _, _ => (Err (DriverError 0), db)
      end
  end.

(** [tx.Commit]: the rows of the transaction become the table; when it
    fails the transaction is over all the same and the table stays. *)
Definition Commit (db : DB) : option error * DB :=
  match tick db with
  | (Some err, db) =>
      (Some err, {| table := table db; pending := None; faults := faults db; plan := plan db |})
  | (None, db) =>
      match pending db with
      | Some t => (None, {| table := t; pending := None; faults := faults db; plan := plan db |})
      | None => (Some (DriverError 0), db)
      end
  end.

(** [tx.Rollback]: drops what the transaction did; nothing to do once the
    transaction is over.  It is not in the schedule: it is deferred, its
    result is dropped, and here it always succeeds. *)
Definition Rollback (db : DB) : DB :=
  {| table := table db; pending := None; faults := faults db; plan := plan db |}.


End Sql.

(** * Package tango *)
Module Tango.
Import Sql.

Definition tagUpsert : statement := UpsertValue.
Definition tagQuery : statement := SelectValue.
Definition tagDelete : statement := DeleteRow.
Definition tagKeys : statement := SelectKeys.

(** The field [db] of the three handles points to the one store, which the
    operations below take and give back. *)
Record Tag : Type := { universe : string; entity : string; key : string }.

Record TagBag : Type := { bag_universe : string; bag_entity : string }.

(** [Tags] holds the store only; [NewTagsEngine(db)] is its one value. *)
Inductive Tags : Type := NewTagsEngine.

(** [bag.Tag(key)]. *)
Definition TagBag_Tag (bag : TagBag) (key : string) : Tag :=
  {| universe := bag_universe bag; entity := bag_entity bag; key := key |}.

(** [tags.TagBag(universe, entity)]. *)
Definition Tags_TagBag (tags : Tags) (universe entity : string) : TagBag :=
  {| bag_universe := universe; bag_entity := entity |}.

(** [tags.Tag(universe, entity, key)]. *)
Definition Tags_Tag (tags : Tags) (universe entity key : string) : Tag :=
  TagBag_Tag (Tags_TagBag tags universe entity) key.

(** [tag.Get(out)]: the two results, the variable [out] points to, and the
    store. *)
Definition Tag_Get (tag : Tag) (out : Json.slot) (db : DB)
  : bool * option error * Json.slot * DB :=
  match Prepare tagQuery db with
  | (Err err, db) => (false, Some err, out, db)
  | (Ok stmt, db) =>
      match Query stmt [universe tag; entity tag; key tag] db with
      | (Err err, db) => (false, Some err, out, db)
      | (Ok rs, db) =>
          match Next rs db with
          | (false, _, db) => (false, None, out, db)
          | (true, rs, db) =>
              match Scan rs db with
              | (Err err, db) => (false, Some err, out, db)
              | (Ok raw, db) =>
                  match Json.Unmarshal (list_ascii_of_string raw) out with
                  | (out, Some err) => (false, Some err, out, db)
                  | (out, None) => (true, None, out, db)
                  end
              end
          end
      end
  end.

(** [tag.Set(value)].  The result of [tx.Commit] is dropped; the deferred
    [tx.Rollback] runs on every way out after [Begin]. *)
Definition Tag_Set (tag : Tag) (value : Json.any) (db : DB) : option error * DB :=
  match Json.Marshal value with
  | Err err => (Some err, db)
  | Ok raw =>
      let rawJson := string_of_list_ascii raw in
      match Begin db with
      | (Err err, db) => (Some err, db)
      | (Ok _, db) =>
          match Prepare tagUpsert db with
          | (Err err, db) => (Some err, Rollback db)
          | (Ok stmt, db) =>
              match Exec stmt [universe tag; entity tag; key tag; rawJson] db with
              | (Err err, db) => (Some err, Rollback db)
              | (Ok _, db) =>
                  let (_, db) := Commit db in
                  (None, Rollback db)
              end
          end
      end
  end.

(** [tag.Delete()]. *)
Definition Tag_Delete (tag : Tag) (db : DB) : option error * DB :=
  match Begin db with
  | (Err err, db) => (Some err, db)
  | (Ok _, db) =>
      match Prepare tagDelete db with
      | (Err err, db) => (Some err, Rollback db)
      | (Ok stmt, db) =>
          match Exec stmt [universe tag; entity tag; key tag] db with
          | (Err err, db) => (Some err, Rollback db)
          | (Ok _, db) =>
              let (_, db) := Commit db in
              (None, Rollback db)
          end
      end
  end.

(** The loop of [Tags]: [for rs.Next() { var value string; rs.Scan(&value);
    result = append(result, value) }].  The result of [Scan] is dropped, so
    a failed [Scan] appends the empty string.  [n] bounds the number of
    turns; [TagBag_Tags] gives it the number of rows. *)
Fixpoint Tags_loop (n : nat) (rs : Rows) (result : list string) (db : DB)
  : list string * DB :=
  match n with
  | O => (result, db)
  | S n =>
      match Next rs db with
      | (false, _, db) => (result, db)
      | (true, rs, db) =>
          let (value, db) :=
            match Scan rs db with
            | (Ok s, db) => (s, db)
            | (Err _, db) => (EmptyString, db)
            end in
          Tags_loop n rs (result ++ [value]) db
      end
  end.

(** [bag.Tags()]. *)
Definition TagBag_Tags (bag : TagBag) (db : DB)
  : result (list string) * DB :=
  match Prepare tagKeys db with
  | (Err err, db) => (Err err, db)
  | (Ok stmt, db) =>
      match Query stmt [bag_universe bag; bag_entity bag] db with
      | (Err err, db) => (Err err, db)
      | (Ok rs, db) =>
          let (result, db) := Tags_loop (S (List.length (remaining rs))) rs [] db in
          (Ok result, db)
      end
  end.

(** [n] calls of [tag.Delete()] in a row: their results and the store. *)
Fixpoint Delete_times (n : nat) (tag : Tag) (db : DB)
  : list (option error) * DB :=
  match n with
  | O => ([], db)
  | S n =>
      let (err, db) := Tag_Delete tag db in
      let (errs, db) := Delete_times n tag db in
      (err :: errs, db)
  end.

(** A store with no row, no open transaction and no failure to come, whose
    engine reads the rows of a pair from [tags_id], as SQLite does. *)
Definition empty_store : DB :=
  {| table := []; pending := None; faults := []; plan := IndexScan |}.


(** The triple of a row is the triple of the tag. *)
Definition row_of (tag : Tag) (r : Row) : bool :=
  is_tag (universe tag) (entity tag) (key tag) r.

(** The triple of the tag has no row. *)
Definition absent (tag : Tag) (db : DB) : bool :=
  negb (existsb (row_of tag) (table db)).

(** The texts stored under the triple of the tag. *)
Definition stored (tag : Tag) (db : DB) : list (option string) :=
  select_value (universe tag) (entity tag) (key tag) (table db).

(** The universe, entity and key of a row are not empty. *)
Definition named_row (r : Row) : bool :=
  negb (String.eqb (Sql.universe r) EmptyString) &&
  negb (String.eqb (Sql.entity r) EmptyString) &&
  negb (String.eqb (Sql.key r) EmptyString).

(** The universe, entity and key of a tag are not empty. *)
Definition named_tag (tag : Tag) : bool :=
  negb (String.eqb (universe tag) EmptyString) &&
  negb (String.eqb (entity tag) EmptyString) &&
  negb (String.eqb (key tag) EmptyString).

(** The universe, entity and key of a row. *)
Definition triple (r : Row) : string * string * string :=
  (Sql.universe r, Sql.entity r, Sql.key r).

(** What the unique index [tags_id] and the primary key keep: no two rows
    with the same universe, entity and key, and no two rows with the same
    id. *)
Definition unique_rows (t : list Row) : Prop :=
  NoDup (map triple t) /\ NoDup (map Sql.id t).

(** A call that writes: [tag.Set(value)] or [tag.Delete()]. *)
Inductive write : Type :=
| DoSet (tag : Tag) (value : Json.any)
| DoDelete (tag : Tag).

(** The store after the calls, made one after the other. *)
Fixpoint run (ws : list write) (db : DB) : DB :=
  match ws with
  | [] => db
  | DoSet tag value :: ws => run ws (snd (Tag_Set tag value db))
  | DoDelete tag :: ws => run ws (snd (Tag_Delete tag db))
  end.


(** The names that [bag.Tags()] lists on a store without failures. *)
Definition names_of (bag : TagBag) (db : DB) : list string :=
  map Sql.key
      (scan_rows (plan db) (bag_universe bag) (bag_entity bag) (table db)).

End Tango.

(** * The data of the tests of the package *)
Module Samples.
Import Sql Tango.

#[local] Open Scope string_scope.

Definition tags : Tags := NewTagsEngine.

(** [tags.Tag("1234", "5678", key)]. *)
Definition tag_of (key : string) : Tag := Tags_Tag tags "1234" "5678" key.

(** [tags.TagBag("1234", "5678")]. *)
Definition bag : TagBag := Tags_TagBag tags "1234" "5678".

(** The row of [INSERT INTO tags(universe, entity, key, value) VALUES
    ('1234', '5678', key, value)]. *)
Definition row (id : Z) (key value : string) : Row :=
  {| Sql.id := id; Sql.universe := "1234"; Sql.entity := "5678";
     Sql.key := key; Sql.value := Some value |}.

(** A store with the rows [t] and no failure to come. *)
Definition store (t : list Row) : DB :=
  {| table := t; pending := None; faults := []; plan := IndexScan |}.

(** A store with the rows [t] whose calls fail as [fs] says. *)
Definition failing (fs : list (option error)) (t : list Row) : DB :=
  {| table := t; pending := None; faults := fs; plan := IndexScan |}.

(** The text [s] between double quotes. *)
Definition quoted (s : string) : string :=
  String "034" (s ++ String "034" EmptyString).

(** A variable of type [t] that holds [v]. *)
Definition var (t : Json.gotype) (v : Json.any) : Json.slot :=
  {| Json.slot_type := t; Json.slot_val := v |}.

(** [map[string]string{"hello": "world", "john": "doe"}]. *)
Definition hello_john : Json.any :=
  Json.VMap [("hello", Json.VString "world"); ("john", Json.VString "doe")].

(** The table of [TestTagList]: "string" inserted before "number". *)
Definition string_number : list Row :=
  [row 1 "string" (quoted "hello"); row 2 "number" "14"].

(** [tags.TagBag("1234", "9999")]. *)
Definition other_bag : TagBag := Tags_TagBag tags "1234" "9999".

(** A row of the entity "9999" of the universe "1234". *)
Definition other_row (id : Z) (key value : string) : Row :=
  {| Sql.id := id; Sql.universe := "1234"; Sql.entity := "9999";
     Sql.key := key; Sql.value := Some value |}.

(** The string of the one code point U+00E9, two bytes in UTF-8. *)
Definition e_acute : string := String "195" (String "169" EmptyString).

(** A table with rows of the two entities. *)
Definition two_entities : list Row :=
  [row 1 "string" (quoted "hello"); other_row 2 "string" (quoted "red");
   row 3 "number" "14"; other_row 4 "colour" (quoted "blue")].

(** A row of the tag [key] whose value is NULL. *)
Definition null_row (id : Z) (key : string) : Row :=
  {| Sql.id := id; Sql.universe := "1234"; Sql.entity := "5678";
     Sql.key := key; Sql.value := None |}.

(** Writes on the tags "number", "bool" and "empty". *)
Definition some_writes : list write :=
  [DoSet (tag_of "number") (Json.VInt 15); DoDelete (tag_of "bool");
   DoSet (tag_of "bool") (Json.VBool true); DoDelete (tag_of "empty")].

End Samples.

(** * Facts about the JSON text *)
Module JsonFacts.
Import Json.

#[local] Open Scope char_scope.


(** ** Strings *)











(** ** Numbers *)













(** ** Values *)









Lemma parse_elems_step (n : nat) (s : bytes) :
  parse_elems (S n) s =
  match parse_value n s with
  | Some (j, r) =>
      match skip_ws r with
      | c :: r' =>
          if c =? "," then
            match parse_elems n r' with
            | Some (l, r'') => Some (j :: l, r'')
            | None => None
            end
          else if c =? "]" then Some ([j], r')
          else None
      | [] => None
      end
  | None => None
  end.
Proof. reflexivity. Qed.







(** ** Go values *)















(** ** The bound on nested calls *)

Ltac case_in H :=
  match type of H with
  | context [match ?x with _ => _ end] =>
      let E := fresh "E" in destruct x eqn:E; try discriminate H
  end.

Lemma skip_ws_length (s : bytes) :
  (List.length (skip_ws s) <= List.length s)%nat.
Proof.
  induction s as [|c s IH]; simpl; [lia|].
  destruct (is_ws c); simpl; lia.
Qed.

Lemma strip_length (w s r : bytes) :
  strip w s = Some r -> List.length s = (List.length w + List.length r)%nat.
Proof.
  revert s. induction w as [|a w IH]; intros s H; simpl in H.
  - injection H as <-. reflexivity.
  - destruct s as [|c s]; [discriminate|].
    destruct (a =? c); [|discriminate]. simpl. rewrite (IH s H). reflexivity.
Qed.

Lemma span_digits_length (s ds r : bytes) :
  span_digits s = (ds, r) -> (List.length r <= List.length s)%nat.
Proof.
  revert ds r. induction s as [|c s IH]; intros ds r H; simpl in H.
  - injection H as <- <-. simpl. lia.
  - destruct (is_digit c).
    + destruct (span_digits s) as [ds' r'] eqn:E. injection H as <- <-.
      specialize (IH ds' r' eq_refl). simpl. lia.
    + injection H as <- <-. simpl. lia.
Qed.

Lemma scan_exp_length (acc s lit r : bytes) :
  scan_exp acc s = Some (lit, r) -> (List.length r <= List.length s)%nat.
Proof.
  unfold scan_exp. intros H. destruct s as [|e s].
  - injection H as <- <-. simpl. lia.
  - destruct ((e =? "e") || (e =? "E")).
    + destruct s as [|c s'].
      * simpl in H. discriminate.
      * destruct ((c =? "+") || (c =? "-")).
        -- destruct (span_digits s') as [ds r2] eqn:E.
           apply span_digits_length in E.
           destruct ds; [discriminate|]. injection H as <- <-. simpl. lia.
        -- destruct (span_digits (c :: s')) as [ds r2] eqn:E.
           apply span_digits_length in E.
           destruct ds; [discriminate|]. injection H as <- <-.
           simpl in *. lia.
    + injection H as <- <-. lia.
Qed.

Lemma scan_frac_length (acc s lit r : bytes) :
  scan_frac acc s = Some (lit, r) -> (List.length r <= List.length s)%nat.
Proof.
  unfold scan_frac. intros H. destruct s as [|c s'].
  - exact (scan_exp_length _ _ _ _ H).
  - destruct (c =? ".").
    + destruct (span_digits s') as [ds r'] eqn:E.
      apply span_digits_length in E.
      destruct ds; [discriminate|]. apply scan_exp_length in H. simpl. lia.
    + exact (scan_exp_length _ _ _ _ H).
Qed.

Lemma scan_int_length (sign s lit r : bytes) :
  scan_int sign s = Some (lit, r) -> (List.length r < List.length s)%nat.
Proof.
  unfold scan_int. intros H. destruct s as [|c s']; [discriminate|].
  destruct (c =? "0").
  - apply scan_frac_length in H. simpl. lia.
  - destruct (is_digit c); [|discriminate].
    destruct (span_digits s') as [ds r'] eqn:E.
    apply span_digits_length in E. apply scan_frac_length in H. simpl. lia.
Qed.

Lemma scan_number_length (s lit r : bytes) :
  scan_number s = Some (lit, r) -> (List.length r < List.length s)%nat.
Proof.
  unfold scan_number. intros H. destruct s as [|c s']; [discriminate|].
  destruct (c =? "-").
  - apply scan_int_length in H. simpl. lia.
  - exact (scan_int_length _ _ _ _ H).
Qed.

Lemma parse_string_length (n : nat) :
  forall s str r,
    (List.length s <= n)%nat -> parse_string s = Some (str, r) ->
    (List.length r < List.length s)%nat.
Proof.
  induction n as [|n IH]; intros s str r Hn H.
  - destruct s; [discriminate|simpl in Hn; lia].
  - destruct s as [|c s]; [discriminate|].
    cbn [parse_string] in H. unfold cons_to in H.
    repeat case_in H;
      try (injection H as <- <-);
      repeat match goal with
        | E : parse_string ?x = Some _ |- _ =>
            apply IH in E; [|simpl in *; lia]
        end;
      simpl in *; lia.
Qed.

Ltac rew_all :=
  repeat match goal with
    | E : ?x = _ |- context [?x] => rewrite E
    end.

Ltac learn t :=
  let T := type of t in
  lazymatch goal with
  | _ : T |- _ => fail
  | _ => pose proof t
  end.

Lemma length_tl (s : bytes) :
  (List.length (tl s) <= List.length s)%nat.
Proof. destruct s; simpl; lia. Qed.

Lemma starts_with_length (c : ascii) (s : bytes) :
  starts_with c s = true -> (List.length (tl s) < List.length s)%nat.
Proof. destruct s; simpl; [discriminate|lia]. Qed.

(** A result of [parse_value] takes bytes off the text, and every bound
    from the number of these bytes on gives the same result. *)
Lemma parse_bound (m : nat) :
  consumes parse_value m /\ consumes parse_elems m /\ consumes parse_members m.
Proof.
  induction m as [|m (IHv & IHl & IHm)]; unfold consumes in *.
  - repeat split; discriminate.
  - split; [|split]; intros s a r H;
      [cbn [parse_value] in H | rewrite parse_elems_step in H
       | cbn [parse_members] in H];
      unfold option_map in H; repeat case_in H; injection H as <- <-;
      repeat match goal with
        | E : skip_ws ?x = _ |- _ => learn (skip_ws_length x)
        | E : starts_with _ (skip_ws ?x) = _ |- _ => learn (skip_ws_length x)
        | E : starts_with _ ?x = true |- _ => learn (starts_with_length _ _ E)
        | E : strip _ _ = Some _ |- _ => learn (strip_length _ _ _ E)
        | E : parse_string _ = Some _ |- _ =>
            learn (parse_string_length _ _ _ _ (le_n _) E)
        | E : scan_number _ = Some _ |- _ => learn (scan_number_length _ _ _ E)
        | E : parse_value m _ = Some _ |- _ => learn (IHv _ _ _ E)
        | E : parse_elems m _ = Some _ |- _ => learn (IHl _ _ _ E)
        | E : parse_members m _ = Some _ |- _ => learn (IHm _ _ _ E)
        end;
      repeat match goal with
        | E : skip_ws ?x = _, L : context [skip_ws ?x] |- _ =>
            rewrite E in L
        end;
      repeat match goal with
        | L : _ /\ _ |- _ => destruct L
        end;
      simpl List.length in *;
      (split; [lia|]);
      intros n Hn; (destruct n as [|n]; [lia|]);
      cbn [parse_value parse_elems parse_members]; unfold option_map;
      repeat (rew_all;
              try match goal with
                | L : forall k, _ -> ?f k ?x = _ |- context [?f ?n ?x] =>
                    rewrite (L n) by lia
                end);
      reflexivity.
Qed.

(** [parse] does not depend on its bound: a larger one reads the same. *)
Lemma parse_value_any_bound (s : bytes) (m : nat) :
  (List.length s < m)%nat ->
  parse_value m s = parse_value (S (List.length s)) s.
Proof.
  intros Hm. destruct (parse_value m s) as [[j r]|] eqn:E.
  - destruct (parse_bound m) as (Hv & _).
    destruct (Hv s j r E) as (_ & Hn). symmetry. apply Hn. lia.
  - destruct (parse_value (S (List.length s)) s) as [[j r]|] eqn:E';
      [|reflexivity].
    destruct (parse_bound (S (List.length s))) as (Hv & _).
    destruct (Hv s j r E') as (_ & Hn).
    rewrite Hn in E by lia. discriminate.
Qed.

End JsonFacts.

(** * Facts about the store *)
Module SqlFacts.
Import Sql.

Lemma tick_healthy (db : DB) : faults db = [] -> tick db = (None, db).
Proof. intros H. unfold tick. rewrite H. reflexivity. Qed.

Lemma is_tag_set_value (u e k v : string) (r : Row) :
  is_tag u e k (set_value v r) = is_tag u e k r.
Proof. reflexivity. Qed.

(** After the upsert every row of the triple holds the new text, and
    there is one. *)
Lemma select_value_upsert (u e k v : string) (t : list Row) :
  exists rest,
    select_value u e k (upsert u e k v t) = Some v :: rest /\
    Forall (eq (Some v)) rest.
Proof.
  unfold select_value, upsert.
  destruct (existsb (is_tag u e k) t) eqn:E.
  - apply existsb_exists in E. destruct E as (r0 & Hin & Hr0).
    assert (F : Forall (eq (Some v))
                  (map value
                     (filter (is_tag u e k)
                        (map (fun r => if is_tag u e k r then set_value v r else r)
                             t)))).
    { clear. induction t as [|r t IH]; [constructor|].
      simpl. destruct (is_tag u e k r) eqn:Er.
      - rewrite is_tag_set_value, Er. simpl. constructor; [reflexivity|exact IH].
      - rewrite Er. exact IH. }
    assert (N : map value
                  (filter (is_tag u e k)
                     (map (fun r => if is_tag u e k r then set_value v r else r)
                          t)) <> []).
    { clear F. induction t as [|r t IH]; [destruct Hin|].
      simpl. destruct (is_tag u e k r) eqn:Er.
      - rewrite is_tag_set_value, Er. discriminate.
      - rewrite Er. destruct Hin as [->|Hin]; [congruence|exact (IH Hin)]. }
    destruct (map value _) as [|x rest]; [congruence|].
    inversion F; subst. exists rest. split; [reflexivity|assumption].
  - exists []. split; [|constructor].
    rewrite filter_app, map_app.
    assert (N : filter (is_tag u e k) t = []).
    { induction t as [|r t IH]; [reflexivity|].
      simpl in E. apply orb_false_iff in E. destruct E as [Er Et].
      simpl. rewrite Er. exact (IH Et). }
    rewrite N. simpl. unfold is_tag, in_bag. simpl.
    rewrite !String.eqb_refl. reflexivity.
Qed.

Lemma filter_absent (u e k : string) (t : list Row) :
  existsb (is_tag u e k) t = false -> filter (is_tag u e k) t = [].
Proof.
  induction t as [|r t IH]; [reflexivity|].
  simpl. intros E. apply orb_false_iff in E. destruct E as [Er Et].
  rewrite Er. exact (IH Et).
Qed.

Lemma select_value_absent (u e k : string) (t : list Row) :
  existsb (is_tag u e k) t = false -> select_value u e k t = [].
Proof.
  intros E. unfold select_value. rewrite (filter_absent _ _ _ _ E). reflexivity.
Qed.

(** Deleting a triple that has no row changes nothing. *)
Lemma delete_absent (u e k : string) (t : list Row) :
  existsb (is_tag u e k) t = false -> delete u e k t = t.
Proof.
  unfold delete. induction t as [|r t IH]; [reflexivity|].
  simpl. intros E. apply orb_false_iff in E. destruct E as [Er Et].
  rewrite Er. simpl. rewrite (IH Et). reflexivity.
Qed.

(** After the delete the triple has no row. *)
Lemma absent_delete (u e k : string) (t : list Row) :
  existsb (is_tag u e k) (delete u e k t) = false.
Proof.
  unfold delete. induction t as [|r t IH]; [reflexivity|].
  simpl. destruct (is_tag u e k r) eqn:Er; simpl; [exact IH|].
  rewrite Er. exact IH.
Qed.


Lemma insert_by_key_perm (r : Row) (l : list Row) :
  Permutation (insert_by_key r l) (r :: l).
Proof.
  induction l as [|r' l IH]; [apply Permutation_refl|].
  simpl. destruct (String.leb (key r) (key r')).
  - apply Permutation_refl.
  - eapply Permutation_trans; [apply perm_skip; exact IH|apply perm_swap].
Qed.



Lemma tags_id_range_perm (u e : string) (t : list Row) :
  Permutation (tags_id_range u e t) (filter (in_bag u e) t).
Proof.
  unfold tags_id_range.
  induction (filter (in_bag u e) t) as [|r l IH]; simpl.
  - apply Permutation_refl.
  - eapply Permutation_trans; [apply insert_by_key_perm|].
    apply perm_skip. exact IH.
Qed.

Lemma scan_rows_perm (p : scan) (u e : string) (t : list Row) :
  Permutation (scan_rows p u e t) (filter (in_bag u e) t).
Proof.
  destruct p; [apply Permutation_refl|apply tags_id_range_perm].
Qed.


(** The rows after an upsert: the rows before, under their triples, and a
    row under the triple of the statement. *)
Lemma In_upsert (u e k v : string) (t : list Row) (r : Row) :
  In r (upsert u e k v t) ->
  (exists r0, In r0 t /\ id r = id r0 /\ universe r = universe r0 /\
              entity r = entity r0 /\ key r = key r0) \/
  (universe r = u /\ entity r = e /\ key r = k).
Proof.
  unfold upsert. destruct (existsb (is_tag u e k) t).
  - intros H. apply in_map_iff in H. destruct H as (r0 & E & Hin).
    left. exists r0. split; [exact Hin|].
    destruct (is_tag u e k r0); subst r; repeat split; reflexivity.
  - intros H. apply in_app_or in H. destruct H as [H|[H|[]]].
    + left. exists r. repeat split. exact H.
    + right. subst r. repeat split; reflexivity.
Qed.

(** ** Rows of other triples, and the constraints of the table *)

Lemma is_tag_eq (u e k : string) (r : Row) :
  is_tag u e k r = true <-> universe r = u /\ entity r = e /\ key r = k.
Proof.
  unfold is_tag, in_bag. rewrite !andb_true_iff, !String.eqb_eq. tauto.
Qed.

Lemma is_tag_other (u e k u' e' k' : string) (r : Row) :
  (u', e', k') <> (u, e, k) -> is_tag u' e' k' r = true ->
  is_tag u e k r = false.
Proof.
  intros N H. destruct (is_tag u e k r) eqn:E; [|reflexivity].
  apply is_tag_eq in H. apply is_tag_eq in E.
  destruct H as (H1 & H2 & H3), E as (E1 & E2 & E3). congruence.
Qed.

(** An upsert leaves what the other triples select. *)
Lemma select_value_upsert_other (u e k v u' e' k' : string) (t : list Row) :
  (u', e', k') <> (u, e, k) ->
  select_value u' e' k' (upsert u e k v t) = select_value u' e' k' t.
Proof.
  intros N. unfold select_value, upsert.
  destruct (existsb (is_tag u e k) t).
  - induction t as [|r t IH]; [reflexivity|].
    simpl. destruct (is_tag u e k r) eqn:E.
    + rewrite is_tag_set_value.
      destruct (is_tag u' e' k' r) eqn:E'; [|exact IH].
      rewrite (is_tag_other _ _ _ _ _ _ _ N E') in E. discriminate.
    + destruct (is_tag u' e' k' r); simpl; rewrite IH; reflexivity.
  - rewrite filter_app, map_app. simpl.
    destruct (is_tag u' e' k' _) eqn:E'.
    + apply is_tag_eq in E'. simpl in E'. destruct E' as (E1 & E2 & E3).
      congruence.
    + simpl. apply List.app_nil_r.
Qed.

(** A delete leaves what the other triples select. *)
Lemma select_value_delete_other (u e k u' e' k' : string) (t : list Row) :
  (u', e', k') <> (u, e, k) ->
  select_value u' e' k' (delete u e k t) = select_value u' e' k' t.
Proof.
  intros N. unfold select_value, delete.
  induction t as [|r t IH]; [reflexivity|].
  simpl. destruct (is_tag u e k r) eqn:E; simpl.
  - destruct (is_tag u' e' k' r) eqn:E'; [|exact IH].
    rewrite (is_tag_other _ _ _ _ _ _ _ N E') in E. discriminate.
  - destruct (is_tag u' e' k' r); simpl; rewrite IH; reflexivity.
Qed.

Lemma delete_upsert (u e k v : string) (t : list Row) :
  delete u e k (upsert u e k v t) = delete u e k t.
Proof.
  unfold delete, upsert. destruct (existsb (is_tag u e k) t).
  - induction t as [|r t IH]; [reflexivity|].
    simpl. destruct (is_tag u e k r) eqn:E.
    + rewrite is_tag_set_value, E. simpl. exact IH.
    + rewrite E. simpl. rewrite IH. reflexivity.
  - rewrite filter_app. simpl.
    unfold is_tag, in_bag. simpl. rewrite !String.eqb_refl. simpl.
    apply List.app_nil_r.
Qed.

Lemma upsert_upsert (u e k v : string) (t : list Row) :
  upsert u e k v (upsert u e k v t) = upsert u e k v t.
Proof.
  assert (F : forall l,
             map (fun r => if is_tag u e k r then set_value v r else r)
                 (map (fun r => if is_tag u e k r then set_value v r else r) l) =
             map (fun r => if is_tag u e k r then set_value v r else r) l).
  { induction l as [|r l IH]; [reflexivity|].
    simpl. rewrite IH. f_equal.
    destruct (is_tag u e k r) eqn:E.
    - rewrite is_tag_set_value, E. reflexivity.
    - rewrite E. reflexivity. }
  destruct (select_value_upsert u e k v t) as (rest & Hs & _).
  assert (Hx : existsb (is_tag u e k) (upsert u e k v t) = true).
  { destruct (existsb (is_tag u e k) (upsert u e k v t)) eqn:E; [reflexivity|].
    rewrite (select_value_absent _ _ _ _ E) in Hs. discriminate. }
  unfold upsert at 1. rewrite Hx.
  unfold upsert. destruct (existsb (is_tag u e k) t) eqn:E.
  - apply F.
  - rewrite map_app. simpl.
    unfold is_tag at 2, in_bag. simpl. rewrite !String.eqb_refl. simpl.
    f_equal. clear Hs Hx. induction t as [|r t IH]; [reflexivity|].
    simpl in E. apply orb_false_iff in E. destruct E as [Er Et].
    simpl. rewrite Er, (IH Et). reflexivity.
Qed.

Lemma existsb_is_tag (u e k : string) (t : list Row) :
  existsb (is_tag u e k) t = true <->
  In k (map key (filter (in_bag u e) t)).
Proof.
  rewrite existsb_exists, in_map_iff. split.
  - intros (r & Hin & Hr). exists r. unfold is_tag in Hr.
    apply andb_true_iff in Hr. destruct Hr as [Hb Hk].
    apply String.eqb_eq in Hk. split; [exact Hk|].
    apply filter_In. split; assumption.
  - intros (r & Hk & Hin). apply filter_In in Hin. destruct Hin as [Hin Hb].
    exists r. split; [exact Hin|]. unfold is_tag. rewrite Hb. simpl.
    apply String.eqb_eq. exact Hk.
Qed.

Lemma existsb_upsert (u e k v u' e' k' : string) (t : list Row) :
  existsb (is_tag u' e' k') (upsert u e k v t) = true <->
  (u', e', k') = (u, e, k) \/ existsb (is_tag u' e' k') t = true.
Proof.
  split.
  - intros H. apply existsb_exists in H. destruct H as (r & Hin & Hr).
    apply is_tag_eq in Hr. destruct Hr as (H1 & H2 & H3).
    apply In_upsert in Hin.
    destruct Hin as [(r0 & Hin0 & _ & E1 & E2 & E3)|(E1 & E2 & E3)].
    + right. apply existsb_exists. exists r0. split; [exact Hin0|].
      apply is_tag_eq. repeat split; congruence.
    + left. congruence.
  - intros [E|H].
    + injection E as -> -> ->.
      destruct (select_value_upsert u e k v t) as (rest & Hs & _).
      destruct (existsb (is_tag u e k) (upsert u e k v t)) eqn:X;
        [reflexivity|].
      rewrite (select_value_absent _ _ _ _ X) in Hs. discriminate.
    + apply existsb_exists in H. destruct H as (r & Hin & Hr).
      apply existsb_exists. unfold upsert.
      destruct (existsb (is_tag u e k) t).
      * exists (if is_tag u e k r then set_value v r else r). split.
        -- apply in_map_iff. exists r. split; [reflexivity|exact Hin].
        -- destruct (is_tag u e k r); [rewrite is_tag_set_value|]; exact Hr.
      * exists r. split; [apply in_or_app; left; exact Hin|exact Hr].
Qed.

Lemma existsb_delete (u e k u' e' k' : string) (t : list Row) :
  existsb (is_tag u' e' k') (delete u e k t) = true <->
  (u', e', k') <> (u, e, k) /\ existsb (is_tag u' e' k') t = true.
Proof.
  unfold delete. rewrite !existsb_exists. split.
  - intros (r & Hin & Hr). apply filter_In in Hin. destruct Hin as [Hin Hn].
    apply negb_true_iff in Hn. split.
    + intros E. injection E as -> -> ->. congruence.
    + exists r. split; assumption.
  - intros (N & r & Hin & Hr). exists r. split; [|exact Hr].
    apply filter_In. split; [exact Hin|].
    rewrite (is_tag_other _ _ _ _ _ _ _ N Hr). reflexivity.
Qed.

End SqlFacts.

(** * The operations on a store without failures *)
Module TangoFacts.
Import Sql Tango.

Lemma Tag_Set_healthy (tag : Tag) (v : Json.any) (raw : bytes) (db : DB) :
  faults db = [] -> Json.Marshal v = Ok raw ->
  Tag_Set tag v db =
  (None,
   {| table := upsert (universe tag) (entity tag) (key tag)
                      (string_of_list_ascii raw) (table db);
      pending := None; faults := []; plan := plan db |}).
Proof.
  intros Hf Hm. destruct db as [t p f pl]. simpl in Hf. subst f.
  unfold Tag_Set. rewrite Hm. reflexivity.
Qed.

Lemma Tag_Set_faults (tag : Tag) (v : Json.any) (db : DB) :
  faults db = [] -> faults (snd (Tag_Set tag v db)) = [].
Proof.
  intros Hf. destruct db as [t p f pl]. simpl in Hf. subst f.
  unfold Tag_Set. destruct (Json.Marshal v); reflexivity.
Qed.

Lemma Tag_Delete_healthy (tag : Tag) (db : DB) :
  faults db = [] ->
  Tag_Delete tag db =
  (None,
   {| table := delete (universe tag) (entity tag) (key tag) (table db);
      pending := None; faults := []; plan := plan db |}).
Proof.
  intros Hf. destruct db as [t p f pl]. simpl in Hf. subst f. reflexivity.
Qed.

Lemma Tag_Get_healthy (tag : Tag) (out : Json.slot) (db : DB) :
  faults db = [] ->
  Tag_Get tag out db =
  match select_value (universe tag) (entity tag) (key tag) (table db) with
  | [] => (false, None, out, db)
  | None :: _ => (false, Some ScanNullError, out, db)
  | Some raw :: _ =>
      match Json.Unmarshal (list_ascii_of_string raw) out with
      | (out', Some err) => (false, Some err, out', db)
      | (out', None) => (true, None, out', db)
      end
  end.
Proof.
  intros Hf. destruct db as [t p f pl]. simpl in Hf. subst f.
  unfold Tag_Get, Prepare, Query, Next, Scan, tick. simpl.
  destruct (select_value (universe tag) (entity tag) (key tag) t)
    as [|[raw|] rest]; reflexivity.
Qed.

Lemma Tags_loop_healthy (rows : list string) :
  forall n c acc db,
    faults db = [] -> (List.length rows < n)%nat ->
    Tags_loop n {| current := c; remaining := map Some rows |} acc db =
    (acc ++ rows, db).
Proof.
  induction rows as [|r rows IH]; intros n c acc db Hf Hn.
  - destruct n; [inversion Hn|].
    destruct db as [t p f pl]. simpl in Hf. subst f. simpl.
    rewrite List.app_nil_r. reflexivity.
  - destruct n; [inversion Hn|].
    destruct db as [t p f pl]. simpl in Hf. subst f.
    cbn [Tags_loop]. unfold Next, Scan, tick. cbn -[Tags_loop].
    rewrite IH; [|reflexivity|simpl in Hn; lia].
    rewrite <- app_assoc. reflexivity.
Qed.

Lemma TagBag_Tags_healthy (bag : TagBag) (db : DB) :
  faults db = [] ->
  TagBag_Tags bag db =
  (Ok (names_of bag db), db).
Proof.
  intros Hf. destruct db as [t p f pl]. simpl in Hf. subst f.
  unfold TagBag_Tags, Prepare, Query, tick, select_keys, names_of.
  cbn -[Tags_loop scan_rows].
  rewrite <- map_map.
  rewrite Tags_loop_healthy; [reflexivity|reflexivity|].
  rewrite !length_map. lia.
Qed.

Lemma Tag_Get_no_row (tag : Tag) (out : Json.slot) (db : DB) :
  absent tag db = true ->
  exists err db',
    Tag_Get tag out db = (false, err, out, db') /\
    (faults db = [] -> err = None).
Proof.
  intros Ha. unfold absent, row_of in Ha. apply negb_true_iff in Ha.
  pose proof (SqlFacts.select_value_absent _ _ _ _ Ha) as Hs.
  unfold select_value in Hs.
  destruct db as [t p f pl]. cbn [table] in *.
  unfold Tag_Get, Prepare, Query, Next, tick, tagQuery. cbn [faults].
  destruct f as [|[e1|] f]; cbn; rewrite ?Hs.
  - eexists; eexists; split; [reflexivity|reflexivity].
  - eexists; eexists; split; [reflexivity|discriminate].
  - destruct f as [|[e2|] f]; cbn; rewrite ?Hs.
    + eexists; eexists; split; [reflexivity|discriminate].
    + eexists; eexists; split; [reflexivity|discriminate].
    + destruct f as [|[e3|] f]; cbn; rewrite ?Hs;
        eexists; eexists; (split; [reflexivity|discriminate]).
Qed.

(** The table after [Set]: as before, or after the upsert of a text. *)
Lemma Tag_Set_table (tag : Tag) (v : Json.any) (db : DB) :
  table (snd (Tag_Set tag v db)) = table db \/
  exists raw,
    table (snd (Tag_Set tag v db)) =
    upsert (universe tag) (entity tag) (key tag) raw (table db).
Proof.
  destruct db as [t p f pl]. unfold Tag_Set.
  destruct (Json.Marshal v) as [raw|err]; [|left; reflexivity].
  unfold Begin, Prepare, Exec, Commit, Rollback, tick, tagUpsert.
  cbn [faults].
  destruct f as [|[e1|] f]; cbn; [right; eexists; reflexivity|tauto|].
  destruct f as [|[e2|] f]; cbn; [right; eexists; reflexivity|tauto|].
  destruct f as [|[e3|] f]; cbn; [right; eexists; reflexivity|tauto|].
  destruct f as [|[e4|] f]; cbn; [right; eexists; reflexivity|tauto|].
  right; eexists; reflexivity.
Qed.

(** The bound of [Tags_loop] is never what ends the loop: any bound above
    the number of rows to come gives the same result, whatever fails. *)
Lemma Tags_loop_bound (rows : list (option string)) :
  forall n m c acc db,
    (List.length rows < n)%nat -> (List.length rows < m)%nat ->
    Tags_loop n {| current := c; remaining := rows |} acc db =
    Tags_loop m {| current := c; remaining := rows |} acc db.
Proof.
  induction rows as [|r rows IH]; intros n m c acc db Hn Hm;
    (destruct n as [|n]; [inversion Hn|]);
    (destruct m as [|m]; [inversion Hm|]);
    cbn [Tags_loop]; unfold Next; destruct (tick db) as [[e|] db1];
    cbn [remaining]; try reflexivity.
  destruct (Scan {| current := Some r; remaining := rows |} db1) as [[s|e] db2];
    apply IH; simpl in *; lia.
Qed.

(** ** What the calls leave as it is *)

Lemma Tag_Delete_table (tag : Tag) (db : DB) :
  table (snd (Tag_Delete tag db)) = table db \/
  table (snd (Tag_Delete tag db)) =
  delete (universe tag) (entity tag) (key tag) (table db).
Proof.
  destruct db as [t p f pl]. unfold Tag_Delete.
  unfold Begin, Prepare, Exec, Commit, Rollback, tick, tagDelete.
  cbn [faults].
  destruct f as [|[e1|] [|[e2|] [|[e3|] [|[e4|] f]]]]; cbn; tauto.
Qed.

(** The writes leave the engine as it is. *)
Lemma Tag_Set_plan (tag : Tag) (v : Json.any) (db : DB) :
  plan (snd (Tag_Set tag v db)) = plan db.
Proof.
  destruct db as [t p f pl]. unfold Tag_Set.
  destruct (Json.Marshal v) as [raw|err]; [|reflexivity].
  unfold Begin, Prepare, Exec, Commit, Rollback, tick, tagUpsert.
  cbn [faults].
  destruct f as [|[e1|] [|[e2|] [|[e3|] [|[e4|] f]]]]; reflexivity.
Qed.

Lemma Tag_Delete_plan (tag : Tag) (db : DB) :
  plan (snd (Tag_Delete tag db)) = plan db.
Proof.
  destruct db as [t p f pl]. unfold Tag_Delete.
  unfold Begin, Prepare, Exec, Commit, Rollback, tick, tagDelete.
  cbn [faults].
  destruct f as [|[e1|] [|[e2|] [|[e3|] [|[e4|] f]]]]; reflexivity.
Qed.

(** A call that returns an error did not change the table. *)
Lemma Tag_Set_error (tag : Tag) (v : Json.any) (db : DB) (e : error) :
  fst (Tag_Set tag v db) = Some e -> table (snd (Tag_Set tag v db)) = table db.
Proof.
  destruct db as [t p f pl]. unfold Tag_Set.
  destruct (Json.Marshal v) as [raw|err]; [|reflexivity].
  unfold Begin, Prepare, Exec, Commit, Rollback, tick, tagUpsert.
  cbn [faults].
  destruct f as [|[e1|] [|[e2|] [|[e3|] [|[e4|] f]]]]; cbn;
    intros H; try discriminate H; reflexivity.
Qed.

Lemma Tag_Delete_error (tag : Tag) (db : DB) (e : error) :
  fst (Tag_Delete tag db) = Some e -> table (snd (Tag_Delete tag db)) = table db.
Proof.
  destruct db as [t p f pl]. unfold Tag_Delete.
  unfold Begin, Prepare, Exec, Commit, Rollback, tick, tagDelete.
  cbn [faults].
  destruct f as [|[e1|] [|[e2|] [|[e3|] [|[e4|] f]]]]; cbn;
    intros H; try discriminate H; reflexivity.
Qed.

Lemma Tag_Delete_faults (tag : Tag) (db : DB) :
  faults db = [] -> faults (snd (Tag_Delete tag db)) = [].
Proof.
  intros Hf. rewrite (Tag_Delete_healthy tag db Hf). reflexivity.
Qed.

Lemma tick_frame (db : DB) :
  table (snd (tick db)) = table db /\ pending (snd (tick db)) = pending db.
Proof.
  unfold tick. destruct (faults db); split; reflexivity.
Qed.

(** [Get] reads only. *)
Lemma Tag_Get_frame (tag : Tag) (out : Json.slot) (db : DB) :
  table (snd (Tag_Get tag out db)) = table db /\
  pending (snd (Tag_Get tag out db)) = pending db.
Proof.
  destruct db as [t p f pl].
  unfold Tag_Get, Prepare, Query, Next, Scan, tick, tagQuery. cbn [faults].
  destruct f as [|[e1|] [|[e2|] [|[e3|] [|[e4|] f]]]];
    cbn -[Json.Unmarshal select_value];
    try match goal with
      | |- context [match select_value ?u ?e ?k ?t with _ => _ end] =>
          destruct (select_value u e k t) as [|[raw|] rest]
      end;
    cbn -[Json.Unmarshal select_value];
    try match goal with
      | |- context [Json.Unmarshal ?x ?y] =>
          destruct (Json.Unmarshal x y) as [o [e|]]
      end;
    split; reflexivity.
Qed.

Lemma Tags_loop_frame (n : nat) :
  forall rs acc db,
    table (snd (Tags_loop n rs acc db)) = table db /\
    pending (snd (Tags_loop n rs acc db)) = pending db.
Proof.
  induction n as [|n IH]; intros rs acc db; [split; reflexivity|].
  cbn [Tags_loop]. unfold Next.
  destruct (tick_frame db) as [T1 P1].
  destruct (tick db) as [[e|] db1]; cbn [snd] in *.
  - split; assumption.
  - destruct (remaining rs) as [|c r]; [split; assumption|].
    unfold Scan. destruct (tick_frame db1) as [T2 P2].
    destruct (tick db1) as [[e|] db2]; cbn [snd] in *.
    + destruct (IH {| current := Some c; remaining := r |}
                   (acc ++ [EmptyString]) db2) as [T3 P3].
      split; congruence.
    + destruct c as [x|]; cbn [current];
        match goal with
        | |- context [Tags_loop n ?rs ?a db2] =>
            destruct (IH rs a db2) as [T3 P3]
        end;
        split; congruence.
Qed.

(** [Tags] reads only. *)
Lemma TagBag_Tags_frame (bag : TagBag) (db : DB) :
  table (snd (TagBag_Tags bag db)) = table db /\
  pending (snd (TagBag_Tags bag db)) = pending db.
Proof.
  unfold TagBag_Tags, Prepare.
  destruct (tick_frame db) as [T1 P1].
  destruct (tick db) as [[e|] db1]; cbn [snd] in *; [split; assumption|].
  unfold Query. destruct (tick_frame db1) as [T2 P2].
  destruct (tick db1) as [[e|] db2]; cbn [snd query tagKeys] in *.
  - split; congruence.
  - match goal with
    | |- context [Tags_loop ?n ?rs ?a db2] =>
        destruct (Tags_loop_frame n rs a db2) as [T3 P3];
        destruct (Tags_loop n rs a db2) as [names db3]
    end.
    cbn [snd] in *. split; congruence.
Qed.

(** ** The constraints of the table *)

Lemma NoDup_snoc {A : Type} (l : list A) (x : A) :
  NoDup l -> ~ In x l -> NoDup (l ++ [x]).
Proof.
  intros Hl Hx. apply (Permutation_NoDup (l := x :: l)).
  - apply Permutation_cons_append.
  - constructor; assumption.
Qed.

Lemma NoDup_map_filter {A B : Type} (g : A -> B) (f : A -> bool) (l : list A) :
  NoDup (map g l) -> NoDup (map g (filter f l)).
Proof.
  induction l as [|a l IH]; simpl; intros H; [constructor|].
  inversion H as [|? ? Hn Hl]; subst.
  destruct (f a); simpl; [|exact (IH Hl)].
  constructor; [|exact (IH Hl)].
  intros Hin. apply Hn. apply in_map_iff in Hin.
  destruct Hin as (b & E & Hb). apply filter_In in Hb.
  apply in_map_iff. exists b. tauto.
Qed.

Lemma next_id_fresh (t : list Row) (r : Row) :
  In r t -> Sql.id r < next_id t.
Proof.
  unfold next_id. induction t as [|r' t IH]; [intros []|].
  cbn [map fold_right In]. intros [->|Hin]; [lia|]. specialize (IH Hin). lia.
Qed.

Lemma unique_rows_upsert (u e k v : string) (t : list Row) :
  unique_rows t -> unique_rows (upsert u e k v t).
Proof.
  unfold unique_rows, upsert. intros [Ht Hi].
  destruct (existsb (is_tag u e k) t) eqn:E.
  - rewrite !map_map.
    assert (E1 : map (fun r => triple (if is_tag u e k r then set_value v r
                                       else r)) t = map triple t).
    { apply map_ext. intros r. destruct (is_tag u e k r); reflexivity. }
    assert (E2 : map (fun r => Sql.id (if is_tag u e k r then set_value v r
                                       else r)) t = map Sql.id t).
    { apply map_ext. intros r. destruct (is_tag u e k r); reflexivity. }
    rewrite E1, E2. split; assumption.
  - rewrite !map_app. simpl. split; apply NoDup_snoc; try assumption.
    + intros Hin. apply in_map_iff in Hin. destruct Hin as (r & Er & Hin).
      assert (X : existsb (is_tag u e k) t = true).
      { apply existsb_exists. exists r. split; [exact Hin|].
        apply SqlFacts.is_tag_eq. unfold triple in Er. injection Er as -> -> ->.
        repeat split. }
      congruence.
    + intros Hin. apply in_map_iff in Hin. destruct Hin as (r & Er & Hin).
      pose proof (next_id_fresh t r Hin). lia.
Qed.

Lemma unique_rows_delete (u e k : string) (t : list Row) :
  unique_rows t -> unique_rows (delete u e k t).
Proof.
  unfold unique_rows, delete. intros [Ht Hi].
  split; apply NoDup_map_filter; assumption.
Qed.

(** Under the unique index a triple has one row at most. *)
Lemma unique_rows_select (u e k : string) (t : list Row) :
  unique_rows t -> (List.length (select_value u e k t) <= 1)%nat.
Proof.
  unfold unique_rows, select_value. intros [Ht _]. rewrite length_map.
  induction t as [|r t IH]; [simpl; lia|].
  simpl in Ht. inversion Ht as [|? ? Hn Hl]; subst.
  simpl. destruct (is_tag u e k r) eqn:E; [|exact (IH Hl)].
  assert (X : filter (is_tag u e k) t = []).
  { apply SqlFacts.filter_absent. destruct (existsb (is_tag u e k) t) eqn:X;
      [|reflexivity].
    apply existsb_exists in X. destruct X as (r' & Hin & Hr').
    exfalso. apply Hn. apply in_map_iff. exists r'. split; [|exact Hin].
    apply SqlFacts.is_tag_eq in E. apply SqlFacts.is_tag_eq in Hr'. unfold triple.
    destruct E as (-> & -> & ->), Hr' as (-> & -> & ->). reflexivity. }
  rewrite X. simpl. lia.
Qed.

Lemma not_null_upsert (u e k v : string) (t : list Row) :
  Forall (fun r => value r <> None) t ->
  Forall (fun r => value r <> None) (upsert u e k v t).
Proof.
  intros H. unfold upsert. destruct (existsb (is_tag u e k) t).
  - apply Forall_map. eapply Forall_impl; [|exact H].
    intros r Hr. destruct (is_tag u e k r); [discriminate|exact Hr].
  - apply Forall_app. split; [exact H|]. constructor; [discriminate|constructor].
Qed.

Lemma not_null_delete (u e k : string) (t : list Row) :
  Forall (fun r => value r <> None) t ->
  Forall (fun r => value r <> None) (delete u e k t).
Proof.
  intros H. unfold delete. apply Forall_forall. intros r Hin.
  apply filter_In in Hin. rewrite Forall_forall in H. apply H. tauto.
Qed.

End TangoFacts.

(** * Properties of the operations *)

Import Sql Tango Samples.
Import JsonFacts SqlFacts TangoFacts.

#[local] Open Scope string_scope.








(** C4: on a store without failures, [Delete] of a triple that has no row
    returns no error and leaves the table as it is, and so does every one
    of any number of [Delete] calls in a row; whatever the table holds,
    the triple has no row after a [Delete]. *)
Theorem Delete_absent (tag : Tag) (db : DB) :
  faults db = [] -> absent tag db = true ->
  (exists db', Tag_Delete tag db = (None, db') /\ table db' = table db) /\
  (forall n,
      fst (Delete_times n tag db) = repeat None n /\
      table (snd (Delete_times n tag db)) = table db) /\
  (forall db0, faults db0 = [] ->
      fst (Tag_Delete tag db0) = None /\
      absent tag (snd (Tag_Delete tag db0)) = true).
Proof.
  intros Hf Ha. unfold absent, row_of in *. apply negb_true_iff in Ha.
  split; [|split].
  - eexists. split; [apply (Tag_Delete_healthy tag db Hf)|].
    cbn [table]. apply delete_absent. exact Ha.
  - intros n. revert db Hf Ha. induction n as [|n IH]; intros db Hf Ha.
    + split; reflexivity.
    + cbn [Delete_times]. rewrite (Tag_Delete_healthy tag db Hf).
      specialize (IH {| table := delete (universe tag) (entity tag) (key tag)
                                        (table db);
                        pending := None; faults := []; plan := plan db |} eq_refl).
      cbn [table] in IH. rewrite (delete_absent _ _ _ _ Ha) in *.
      specialize (IH Ha). destruct IH as [IH1 IH2].
      destruct (Delete_times n tag _) as [errs db2]. cbn [fst snd] in *.
      split; [simpl; rewrite IH1; reflexivity|exact IH2].
  - intros db0 Hf0. rewrite (Tag_Delete_healthy tag db0 Hf0). cbn [fst snd table].
    split; [reflexivity|]. apply negb_true_iff. apply absent_delete.
Qed.

(** C5: [Get] of a triple that has no row returns [false] and leaves the
    variable as it was, whether the store fails or not; on a store
    without failures the error is nil. *)
Theorem Get_absent (tag : Tag) (out : Json.slot) (db : DB) :
  absent tag db = true ->
  exists err db',
    Tag_Get tag out db = (false, err, out, db') /\
    (faults db = [] -> err = None).
Proof.
  apply Tag_Get_no_row.
Qed.

(** C6: errors of the store that the operations drop.  When [tx.Commit]
    fails, [Set] and [Delete] return nil although the table did not
    change; when [rs.Next] fails, [Get] reports a row that is there as not
    found, without an error, and [Tags] returns the names read so far,
    without an error; when [rs.Scan] fails in [Tags], the empty string is
    listed, without an error. *)
Theorem dropped_errors :
  Tag_Set (tag_of "string") (Json.VString "hello")
          (failing [None; None; None; Some (DriverError 1)] []) =
  (None, store []) /\
  Tag_Delete (tag_of "string")
             (failing [None; None; None; Some (DriverError 1)]
                      [row 1 "string" (quoted "hello")]) =
  (None, store [row 1 "string" (quoted "hello")]) /\
  Tag_Get (tag_of "string") (var Json.TString (Json.VString EmptyString))
          (failing [None; None; Some (DriverError 1)]
                   [row 1 "string" (quoted "hello")]) =
  (false, None, var Json.TString (Json.VString EmptyString),
   store [row 1 "string" (quoted "hello")]) /\
  TagBag_Tags bag (failing [None; None; Some (DriverError 1)]
                           [row 1 "string" (quoted "hello")]) =
  (Ok [], store [row 1 "string" (quoted "hello")]) /\
  TagBag_Tags bag (failing [None; None; None; Some (DriverError 1)]
                           [row 1 "string" (quoted "hello")]) =
  (Ok [EmptyString], store [row 1 "string" (quoted "hello")]).
Proof.
  repeat split; reflexivity.
Qed.

(** C7: when [Marshal] fails on the value, [Set] returns the error of
    [Marshal] and the store is as before: no call of the driver was made,
    no transaction was begun, the table is the same. *)
Theorem Set_unencodable (tag : Tag) (v : Json.any) (e : error) (db : DB) :
  Json.Marshal v = Err e -> Tag_Set tag v db = (Some e, db).
Proof.
  intros H. unfold Tag_Set. rewrite H. reflexivity.
Qed.

(** C8: on a store without failures, after [Set(nil)] the text stored under
    the triple is [null]; [Get] into a variable of a pointer, slice or map
    type, whatever it holds, returns [true] and no error and leaves nil in
    the variable; [Get] of a triple with no row returns [false]. *)
Theorem null_is_stored (tag : Tag) (t : Json.gotype) (old : Json.any)
        (db : DB) :
  faults db = [] -> Json.nullable t = true ->
  exists db',
    Tag_Set tag Json.VNil db = (None, db') /\
    (exists rest, stored tag db' = Some "null"%string :: rest /\
                  Forall (eq (Some "null"%string)) rest) /\
    Tag_Get tag {| Json.slot_type := t; Json.slot_val := old |} db' =
    (true, None, {| Json.slot_type := t; Json.slot_val := Json.VNil |}, db') /\
    forall tag0 out0 db0,
      absent tag0 db0 = true ->
      fst (fst (fst (Tag_Get tag0 out0 db0))) = false.
Proof.
  intros Hf Hn.
  pose proof (Tag_Set_healthy tag Json.VNil ["n"; "u"; "l"; "l"]%char db
                Hf eq_refl) as Hs.
  change (string_of_list_ascii ["n"; "u"; "l"; "l"]%char)
    with "null"%string in Hs.
  destruct (select_value_upsert (universe tag) (entity tag) (key tag)
              "null" (table db)) as (rest & E & F).
  eexists. split; [exact Hs|]. split; [|split].
  - exists rest. split; [exact E|exact F].
  - rewrite Tag_Get_healthy by reflexivity. cbn [table].
    rewrite E. destruct t; try discriminate Hn; reflexivity.
  - intros tag0 out0 db0 Ha.
    destruct (Tag_Get_no_row tag0 out0 db0 Ha) as (err & db1 & Hg & _).
    rewrite Hg. reflexivity.
Qed.

(** C9, as the code has it: [Set] stores the triple as the tag has it.
    Every row of the table after [Set] was there before under the same id,
    universe, entity and key, or carries the universe, entity and key of
    the tag; so these are not empty when those of the tag and of the rows
    before are not.  Nothing checks the strings of the tag. *)
Theorem Set_stores_triple_as_given (tag : Tag) (v : Json.any) (db : DB)
        (row : Row) :
  In row (table (snd (Tag_Set tag v db))) ->
  ((exists row0, In row0 (table db) /\ id row = id row0 /\
                 Sql.universe row = Sql.universe row0 /\
                 Sql.entity row = Sql.entity row0 /\
                 Sql.key row = Sql.key row0) \/
   (Sql.universe row = universe tag /\ Sql.entity row = entity tag /\
    Sql.key row = key tag)) /\
  (named_tag tag = true -> forallb named_row (table db) = true ->
   named_row row = true).
Proof.
  intros Hin.
  assert (H : (exists row0, In row0 (table db) /\ id row = id row0 /\
                 Sql.universe row = Sql.universe row0 /\
                 Sql.entity row = Sql.entity row0 /\
                 Sql.key row = Sql.key row0) \/
              (Sql.universe row = universe tag /\ Sql.entity row = entity tag /\
               Sql.key row = key tag)).
  { destruct (Tag_Set_table tag v db) as [E|(raw & E)]; rewrite E in Hin.
    - left. exists row. repeat split. exact Hin.
    - apply In_upsert in Hin. exact Hin. }
  split; [exact H|].
  intros Ht Hrows. unfold named_row, named_tag in *.
  destruct H as [(row0 & Hin0 & _ & Eu & Ee & Ek)|(Eu & Ee & Ek)].
  - rewrite forallb_forall in Hrows. specialize (Hrows row0 Hin0).
    rewrite Eu, Ee, Ek. exact Hrows.
  - rewrite Eu, Ee, Ek. exact Ht.
Qed.

(** C9, as stated, fails: [Set] on the tag of the empty universe, entity
    and key stores a row with the three empty strings. *)
Lemma Set_stores_empty_triple :
  In {| id := 1; Sql.universe := EmptyString; Sql.entity := EmptyString;
        Sql.key := EmptyString;
        value := Some "null"%string |}
     (table (snd (Tag_Set (Tags_Tag NewTagsEngine EmptyString EmptyString EmptyString) Json.VNil
                          empty_store))).
Proof.
  left. reflexivity.
Qed.

(** C10: [Get] returns [true] together with a nil error only: when it
    returns an error the flag is [false], and when the flag is [true] the
    error is nil, the triple has a row with a text, and the variable holds
    what [Unmarshal] made of that text, without an error. *)
Theorem Get_found_no_error (tag : Tag) (out out' : Json.slot) (db db' : DB)
        (found : bool) (err : option error) :
  Tag_Get tag out db = (found, err, out', db') ->
  (err <> None -> found = false) /\
  (found = true ->
   err = None /\
   exists raw,
     In (Some raw) (stored tag db) /\
     Json.Unmarshal (list_ascii_of_string raw) out = (out', None)).
Proof.
  destruct db as [t p f pl]. unfold stored. cbn [table].
  unfold Tag_Get, Prepare, Query, Next, Scan, tick, tagQuery. cbn [faults].
  destruct f as [|[e1|] [|[e2|] [|[e3|] [|[e4|] f]]]];
    cbn -[Json.Unmarshal select_value In];
    try match goal with
      | |- context [match select_value ?u ?e ?k ?t with _ => _ end] =>
          destruct (select_value u e k t) as [|[raw|] rest]
      end;
    cbn -[Json.Unmarshal select_value In];
    try match goal with
      | |- context [Json.Unmarshal ?x ?y] =>
          destruct (Json.Unmarshal x y) as [o [e|]] eqn:U
      end;
    intros [= <- <- <- <-];
    (split;
     [first [reflexivity | congruence]
     |first [discriminate
            |intros _; split;
             [reflexivity
             |eexists; split; [left; reflexivity|eassumption]]]]).
Qed.

(** * The theorems at the data of the tests *)




Lemma Delete_absent_witness :
  faults (store []) = [] /\
  absent (tag_of "bool") (store []) = true /\
  (exists db', Tag_Delete (tag_of "bool") (store []) = (None, db') /\
               table db' = table (store [])) /\
  fst (Delete_times 3 (tag_of "bool") (store [])) = [None; None; None].
Proof.
  split; [reflexivity|]. split; [reflexivity|].
  destruct (Delete_absent (tag_of "bool") (store []) eq_refl eq_refl)
    as (H1 & H2 & _).
  split; [exact H1|]. exact (proj1 (H2 3%nat)).
Defined.

Lemma Get_absent_witness :
  absent (tag_of "empty") (store []) = true /\
  exists err db',
    Tag_Get (tag_of "empty") (var (Json.TPtr Json.TString) Json.VNil)
            (store []) =
    (false, err, var (Json.TPtr Json.TString) Json.VNil, db') /\
    (faults (store []) = [] -> err = None).
Proof.
  split; [reflexivity|].
  apply (Get_absent (tag_of "empty") (var (Json.TPtr Json.TString) Json.VNil)
                    (store [])).
  reflexivity.
Defined.

Lemma Set_unencodable_witness :
  Json.Marshal Json.VChan = Err UnsupportedTypeError /\
  Tag_Set (tag_of "chan") Json.VChan (store []) =
  (Some UnsupportedTypeError, store []).
Proof.
  split; [reflexivity|].
  apply (Set_unencodable (tag_of "chan") Json.VChan UnsupportedTypeError
                         (store [])).
  reflexivity.
Defined.

Lemma null_is_stored_witness :
  faults (store []) = [] /\
  Json.nullable (Json.TPtr Json.TString) = true /\
  exists db',
    Tag_Set (tag_of "nully") Json.VNil (store []) = (None, db') /\
    (exists rest, stored (tag_of "nully") db' = Some "null" :: rest /\
                  Forall (eq (Some "null")) rest) /\
    Tag_Get (tag_of "nully")
            (var (Json.TPtr Json.TString)
                 (Json.VPtr (Json.VString "fakeResult"))) db' =
    (true, None, var (Json.TPtr Json.TString) Json.VNil, db').
Proof.
  split; [reflexivity|]. split; [reflexivity|].
  destruct (null_is_stored (tag_of "nully") (Json.TPtr Json.TString)
              (Json.VPtr (Json.VString "fakeResult")) (store [])
              eq_refl eq_refl) as (db' & Hs & Hr & Hg & _).
  exists db'. split; [exact Hs|]. split; [exact Hr|exact Hg].
Defined.

Lemma Set_stores_triple_as_given_witness :
  In (row 1 "string" (quoted "hello"))
     (table (snd (Tag_Set (tag_of "string") (Json.VString "hello")
                          (store [])))) /\
  (named_tag (tag_of "string") = true ->
   forallb named_row (table (store [])) = true ->
   named_row (row 1 "string" (quoted "hello")) = true).
Proof.
  split; [left; reflexivity|].
  apply (Set_stores_triple_as_given (tag_of "string") (Json.VString "hello")
           (store []) (row 1 "string" (quoted "hello"))).
  left. reflexivity.
Defined.

Lemma Get_found_no_error_witness :
  Tag_Get (tag_of "string") (var Json.TString (Json.VString EmptyString))
          (store [row 1 "string" (quoted "hello")]) =
  (true, None, var Json.TString (Json.VString "hello"),
   store [row 1 "string" (quoted "hello")]) /\
  (@None error <> None -> true = false) /\
  (true = true ->
   @None error = None /\
   exists raw,
     In (Some raw) (stored (tag_of "string")
                           (store [row 1 "string" (quoted "hello")])) /\
     Json.Unmarshal (list_ascii_of_string raw)
                    (var Json.TString (Json.VString EmptyString)) =
     (var Json.TString (Json.VString "hello"), None)).
Proof.
  split; [reflexivity|].
  apply (Get_found_no_error (tag_of "string")
           (var Json.TString (Json.VString EmptyString))
           (var Json.TString (Json.VString "hello"))
           (store [row 1 "string" (quoted "hello")])
           (store [row 1 "string" (quoted "hello")]) true None).
  reflexivity.
Defined.

(** * The tests of the package, replayed *)
Module Replay.

(** [TestTagList]: [string] is inserted before [number]. *)
Example TestTagList :
  fst (TagBag_Tags bag
         (store [row 1 "string" (quoted "hello"); row 2 "number" "14"])) =
  Ok ["number"; "string"].
Proof. reflexivity. Qed.

Example TestTagsGetNotFound :
  fst (Tag_Get (tag_of "empty") (var (Json.TPtr Json.TString) Json.VNil)
               (store [])) =
  (false, None, var (Json.TPtr Json.TString) Json.VNil).
Proof. reflexivity. Qed.

Example TestTagsGetString :
  fst (Tag_Get (tag_of "string") (var Json.TString (Json.VString EmptyString))
               (store [row 1 "string" (quoted "hello")])) =
  (true, None, var Json.TString (Json.VString "hello")).
Proof. reflexivity. Qed.

Example TestTagsGetNumber :
  fst (Tag_Get (tag_of "integer") (var Json.TInt (Json.VInt 0))
               (store [row 1 "integer" "33"])) =
  (true, None, var Json.TInt (Json.VInt 33)).
Proof. reflexivity. Qed.

Example TestTagsGetTrue :
  fst (Tag_Get (tag_of "truthy") (var Json.TBool (Json.VBool false))
               (store [row 1 "truthy" "true"])) =
  (true, None, var Json.TBool (Json.VBool true)).
Proof. reflexivity. Qed.

Example TestTagsGetFalse :
  fst (Tag_Get (tag_of "falsy") (var Json.TBool (Json.VBool true))
               (store [row 1 "falsy" "false"])) =
  (true, None, var Json.TBool (Json.VBool false)).
Proof. reflexivity. Qed.

(** [TestTagsGetNull]: the variable points to [fakeResult] before. *)
Example TestTagsGetNull :
  fst (Tag_Get (tag_of "str")
               (var (Json.TPtr Json.TString)
                    (Json.VPtr (Json.VString "fakeResult")))
               (store [row 1 "str" "null"])) =
  (true, None, var (Json.TPtr Json.TString) Json.VNil).
Proof. reflexivity. Qed.

Example TestTagsInsertString :
  Tag_Set (tag_of "string") (Json.VString "hello") (store []) =
  (None, store [row 1 "string" (quoted "hello")]).
Proof. reflexivity. Qed.

Example TestTagsInsertNumber :
  Tag_Set (tag_of "number") (Json.VInt 33) (store []) =
  (None, store [row 1 "number" "33"]).
Proof. reflexivity. Qed.

Example TestTagsInsertTrue :
  Tag_Set (tag_of "truthy") (Json.VBool true) (store []) =
  (None, store [row 1 "truthy" "true"]).
Proof. reflexivity. Qed.

Example TestTagsInsertFalse :
  Tag_Set (tag_of "falsy") (Json.VBool false) (store []) =
  (None, store [row 1 "falsy" "false"]).
Proof. reflexivity. Qed.

Example TestTagsInsertArray :
  Tag_Set (tag_of "array")
          (Json.VSlice [Json.VString "hello"; Json.VString "world"])
          (store []) =
  (None,
   store [row 1 "array" ("[" ++ quoted "hello" ++ "," ++ quoted "world" ++ "]")]).
Proof. reflexivity. Qed.

Example TestTagsInsertObject :
  Tag_Set (tag_of "object") hello_john (store []) =
  (None,
   store [row 1 "object"
              ("{" ++ quoted "hello" ++ ":" ++ quoted "world" ++ "," ++
               quoted "john" ++ ":" ++ quoted "doe" ++ "}")]).
Proof. reflexivity. Qed.

Example TestTagsInsertNull :
  Tag_Set (tag_of "nully") Json.VNil (store []) =
  (None, store [row 1 "nully" "null"]).
Proof. reflexivity. Qed.

Example TestTagsUpsertString :
  Tag_Set (tag_of "string") (Json.VString "world")
          (store [row 1 "string" (quoted "hello")]) =
  (None, store [row 1 "string" (quoted "world")]).
Proof. reflexivity. Qed.

(** [TestTagsUpsertArray]: [[]any{"foo", "bar", 123}]. *)
Example TestTagsUpsertArray :
  Tag_Set (tag_of "array")
          (Json.VSlice [Json.VString "foo"; Json.VString "bar"; Json.VInt 123])
          (store [row 1 "array"
                      ("[" ++ quoted "hello" ++ "," ++ quoted "world" ++ "]")]) =
  (None,
   store [row 1 "array"
              ("[" ++ quoted "foo" ++ "," ++ quoted "bar" ++ ",123]")]).
Proof. reflexivity. Qed.

(** [TestTagsUpsertObject]: the keys are written in order, [level] before
    [user]. *)
Example TestTagsUpsertObject :
  Tag_Set (tag_of "objk")
          (Json.VMap [("user", Json.VString "john.doe"); ("level", Json.VInt 1)])
          (store [row 1 "objk" ("{" ++ quoted "hello" ++ ":" ++ quoted "world"
                                    ++ "}")]) =
  (None,
   store [row 1 "objk"
              ("{" ++ quoted "level" ++ ":1," ++ quoted "user" ++ ":" ++
               quoted "john.doe" ++ "}")]).
Proof. reflexivity. Qed.

Example TestTagsUpsertNotNullToNull :
  Tag_Set (tag_of "thing") Json.VNil
          (store [row 1 "thing" (quoted "foobar")]) =
  (None, store [row 1 "thing" "null"]).
Proof. reflexivity. Qed.

Example TestTagsDeleteExisting :
  Tag_Delete (tag_of "bool") (store [row 1 "bool" "true"]) = (None, store []).
Proof. reflexivity. Qed.

Example TestTagsDeleteNonExisting :
  Tag_Delete (tag_of "bool") (store []) = (None, store []).
Proof. reflexivity. Qed.

(** ** Beyond the tests *)

(** What [Unmarshal] keeps: the entries of a map that the variable
    already holds. *)
Example Unmarshal_keeps_entries :
  Json.Unmarshal (Json.print (Json.tree hello_john))
                 (var (Json.TMap Json.TString)
                      (Json.VMap [("a", Json.VString "b")])) =
  (var (Json.TMap Json.TString)
       (Json.VMap [("a", Json.VString "b"); ("hello", Json.VString "world");
                   ("john", Json.VString "doe")]), None).
Proof. reflexivity. Qed.

(** A string with a code point beyond ASCII is stored as it is and read
    back. *)
Example Set_then_Get_e_acute :
  stored (tag_of "string")
         (snd (Tag_Set (tag_of "string") (Json.VString e_acute) (store []))) =
  [Some (quoted e_acute)] /\
  fst (Tag_Get (tag_of "string") (var Json.TString (Json.VString "x"))
         (snd (Tag_Set (tag_of "string") (Json.VString e_acute) (store [])))) =
  (true, None, var Json.TString (Json.VString e_acute)).
Proof. split; reflexivity. Qed.

(** A byte that is not UTF-8 is stored as the escape of U+FFFD, and [Get]
    returns the three bytes of U+FFFD for it. *)
Example Set_then_Get_not_utf8 :
  stored (tag_of "string")
         (snd (Tag_Set (tag_of "string")
                 (Json.VString (String "255" EmptyString)) (store []))) =
  [Some (quoted "\ufffd")] /\
  fst (Tag_Get (tag_of "string") (var Json.TString (Json.VString "x"))
         (snd (Tag_Set (tag_of "string")
                 (Json.VString (String "255" EmptyString)) (store [])))) =
  (true, None,
   var Json.TString
       (Json.VString (String "239" (String "191" (String "189" EmptyString))))).
Proof. split; reflexivity. Qed.

(** A pointer to a nil pointer is stored as [null], and [Get] returns a
    nil pointer for it. *)
Example Set_then_Get_pointer_to_nil :
  stored (tag_of "nully")
         (snd (Tag_Set (tag_of "nully") (Json.VPtr Json.VNil) (store []))) =
  [Some "null"] /\
  fst (Tag_Get (tag_of "nully")
         (var (Json.TPtr (Json.TPtr Json.TString))
              (Json.VPtr (Json.VPtr (Json.VString "x"))))
         (snd (Tag_Set (tag_of "nully") (Json.VPtr Json.VNil) (store [])))) =
  (true, None, var (Json.TPtr (Json.TPtr Json.TString)) Json.VNil).
Proof. split; reflexivity. Qed.

End Replay.


(** * More about how the calls compose *)
Module ComposeFacts.

Lemma tag_neq (tag tag' : Tag) :
  tag' <> tag ->
  (universe tag', entity tag', key tag') <> (universe tag, entity tag, key tag).
Proof.
  intros N E. apply N. destruct tag, tag'. simpl in E. congruence.
Qed.

Lemma stored_Set_other (tag tag' : Tag) (v : Json.any) (db : DB) :
  tag' <> tag -> stored tag' (snd (Tag_Set tag v db)) = stored tag' db.
Proof.
  intros N. unfold stored.
  destruct (Tag_Set_table tag v db) as [E|(raw & E)]; rewrite E;
    [reflexivity|].
  apply select_value_upsert_other, tag_neq, N.
Qed.

Lemma stored_Delete_other (tag tag' : Tag) (db : DB) :
  tag' <> tag -> stored tag' (snd (Tag_Delete tag db)) = stored tag' db.
Proof.
  intros N. unfold stored.
  destruct (Tag_Delete_table tag db) as [E|E]; rewrite E; [reflexivity|].
  apply select_value_delete_other, tag_neq, N.
Qed.



(** The first three results of [Get] on a store without failures depend
    on the texts stored under the triple only. *)
Lemma Tag_Get_stored (tag : Tag) (out : Json.slot) (db1 db2 : DB) :
  faults db1 = [] -> faults db2 = [] -> stored tag db1 = stored tag db2 ->
  fst (Tag_Get tag out db1) = fst (Tag_Get tag out db2).
Proof.
  intros H1 H2 E. rewrite !Tag_Get_healthy by assumption.
  unfold stored in E. rewrite E.
  destruct (select_value _ _ _ (table db2)) as [|[raw|] rest];
    try reflexivity.
  destruct (Json.Unmarshal _ out) as [o [e|]]; reflexivity.
Qed.

Lemma In_names_of (bag : TagBag) (k : string) (db : DB) :
  In k (names_of bag db) <->
  existsb (is_tag (bag_universe bag) (bag_entity bag) k) (table db) = true.
Proof.
  unfold names_of. rewrite existsb_is_tag. split; intros H.
  - eapply Permutation_in; [|exact H].
    apply Permutation_map, scan_rows_perm.
  - eapply Permutation_in; [|exact H].
    apply Permutation_map, Permutation_sym, scan_rows_perm.
Qed.

Lemma filter_in_bag_upsert_other (u e k v u' e' : string) (t : list Row) :
  (u', e') <> (u, e) ->
  filter (in_bag u' e') (upsert u e k v t) = filter (in_bag u' e') t.
Proof.
  intros N.
  assert (X : forall r, is_tag u e k r = true -> in_bag u' e' r = false).
  { intros r H. apply is_tag_eq in H. destruct H as (H1 & H2 & _).
    unfold in_bag. destruct (String.eqb_spec (Sql.universe r) u');
      destruct (String.eqb_spec (Sql.entity r) e'); try reflexivity.
    congruence. }
  unfold upsert. destruct (existsb (is_tag u e k) t).
  - induction t as [|r t IH]; [reflexivity|].
    simpl. destruct (is_tag u e k r) eqn:E.
    + change (in_bag u' e' (set_value v r)) with (in_bag u' e' r).
      rewrite (X r E). exact IH.
    + destruct (in_bag u' e' r); rewrite IH; reflexivity.
  - rewrite filter_app. simpl. rewrite X; [apply List.app_nil_r|].
    apply is_tag_eq. repeat split.
Qed.

Lemma filter_in_bag_delete_other (u e k u' e' : string) (t : list Row) :
  (u', e') <> (u, e) ->
  filter (in_bag u' e') (delete u e k t) = filter (in_bag u' e') t.
Proof.
  intros N. unfold delete. induction t as [|r t IH]; [reflexivity|].
  simpl. destruct (is_tag u e k r) eqn:E; simpl.
  - apply is_tag_eq in E. destruct E as (H1 & H2 & _).
    assert (X : in_bag u' e' r = false).
    { unfold in_bag. destruct (String.eqb_spec (Sql.universe r) u');
        destruct (String.eqb_spec (Sql.entity r) e'); try reflexivity.
      congruence. }
    rewrite X. exact IH.
  - destruct (in_bag u' e' r); rewrite IH; reflexivity.
Qed.

Lemma NoDup_keys_in_bag (u e : string) (t : list Row) :
  NoDup (map triple t) -> NoDup (map Sql.key (filter (in_bag u e) t)).
Proof.
  induction t as [|r t IH]; simpl; intros H; [constructor|].
  inversion H as [|? ? Hn Hl]; subst.
  destruct (in_bag u e r) eqn:E; [|exact (IH Hl)].
  simpl. constructor; [|exact (IH Hl)].
  intros Hin. apply Hn. apply in_map_iff in Hin.
  destruct Hin as (r' & Ek & Hin'). apply filter_In in Hin'.
  destruct Hin' as [Hin' E'].
  apply in_map_iff. exists r'. split; [|exact Hin'].
  unfold in_bag in E, E'. apply andb_true_iff in E, E'.
  rewrite !String.eqb_eq in E, E'. unfold triple.
  destruct E as [-> ->], E' as [-> ->]. rewrite Ek. reflexivity.
Qed.

Lemma unique_rows_Set (tag : Tag) (v : Json.any) (db : DB) :
  unique_rows (table db) -> unique_rows (table (snd (Tag_Set tag v db))).
Proof.
  intros H. destruct (Tag_Set_table tag v db) as [E|(raw & E)]; rewrite E;
    [exact H|apply unique_rows_upsert; exact H].
Qed.

Lemma unique_rows_Delete (tag : Tag) (db : DB) :
  unique_rows (table db) -> unique_rows (table (snd (Tag_Delete tag db))).
Proof.
  intros H. destruct (Tag_Delete_table tag db) as [E|E]; rewrite E;
    [exact H|apply unique_rows_delete; exact H].
Qed.

Lemma not_null_Set (tag : Tag) (v : Json.any) (db : DB) :
  Forall (fun r => value r <> None) (table db) ->
  Forall (fun r => value r <> None) (table (snd (Tag_Set tag v db))).
Proof.
  intros H. destruct (Tag_Set_table tag v db) as [E|(raw & E)]; rewrite E;
    [exact H|apply not_null_upsert; exact H].
Qed.

Lemma not_null_Delete (tag : Tag) (db : DB) :
  Forall (fun r => value r <> None) (table db) ->
  Forall (fun r => value r <> None) (table (snd (Tag_Delete tag db))).
Proof.
  intros H. destruct (Tag_Delete_table tag db) as [E|E]; rewrite E;
    [exact H|apply not_null_delete; exact H].
Qed.

End ComposeFacts.

Import ComposeFacts.

(** X1: whatever the store does, [Set] on one tag leaves the texts stored
    under every other triple; on a store without failures [Get] on another
    tag returns after the [Set] what it returned before. *)
Theorem Set_leaves_other_tags (tag tag' : Tag) (v : Json.any)
        (out : Json.slot) (db : DB) :
  tag' <> tag ->
  stored tag' (snd (Tag_Set tag v db)) = stored tag' db /\
  (faults db = [] ->
   fst (Tag_Get tag' out (snd (Tag_Set tag v db))) = fst (Tag_Get tag' out db)).
Proof.
  intros N. split; [apply stored_Set_other; exact N|].
  intros Hf. apply Tag_Get_stored;
    [apply Tag_Set_faults; exact Hf|exact Hf|apply stored_Set_other; exact N].
Qed.

(** X2: whatever the store does, [Delete] on one tag leaves the texts
    stored under every other triple; on a store without failures [Get] on
    another tag returns after the [Delete] what it returned before. *)
Theorem Delete_leaves_other_tags (tag tag' : Tag) (out : Json.slot) (db : DB) :
  tag' <> tag ->
  stored tag' (snd (Tag_Delete tag db)) = stored tag' db /\
  (faults db = [] ->
   fst (Tag_Get tag' out (snd (Tag_Delete tag db))) =
   fst (Tag_Get tag' out db)).
Proof.
  intros N. split; [apply stored_Delete_other; exact N|].
  intros Hf. apply Tag_Get_stored;
    [apply Tag_Delete_faults; exact Hf|exact Hf
     |apply stored_Delete_other; exact N].
Qed.

(** X3: on a store without failures, [Set] then [Delete] on a tag leaves
    the table as a [Delete] alone would (as it was, when the triple had no
    row), and [Get] then returns [false], no error, and the variable as it
    was, whatever the value of the [Set]. *)
Theorem Set_Delete_Get (tag : Tag) (v : Json.any) (out : Json.slot) (db : DB) :
  faults db = [] ->
  let db2 := snd (Tag_Delete tag (snd (Tag_Set tag v db))) in
  table db2 = delete (universe tag) (entity tag) (key tag) (table db) /\
  (absent tag db = true -> table db2 = table db) /\
  Tag_Get tag out db2 = (false, None, out, db2).
Proof.
  intros Hf db2.
  assert (Hf1 : faults (snd (Tag_Set tag v db)) = [])
    by (apply Tag_Set_faults; exact Hf).
  assert (E : db2 =
              {| table := delete (universe tag) (entity tag) (key tag)
                                 (table db);
                 pending := None; faults := []; plan := plan db |}).
  { subst db2. rewrite (Tag_Delete_healthy tag _ Hf1). cbn [snd].
    rewrite Tag_Set_plan. f_equal.
    destruct (Tag_Set_table tag v db) as [T|(raw & T)]; rewrite T;
      [reflexivity|apply delete_upsert]. }
  rewrite E. cbn [table]. split; [reflexivity|]. split.
  - intros Ha. unfold absent, row_of in Ha. apply negb_true_iff in Ha.
    apply delete_absent. exact Ha.
  - rewrite Tag_Get_healthy by reflexivity. cbn [table].
    rewrite select_value_absent; [reflexivity|apply absent_delete].
Qed.

(** X4: a [Set] that returns an error, whichever call failed, has not
    changed the table. *)
Theorem Set_error_changes_nothing (tag : Tag) (v : Json.any) (db : DB)
        (e : error) :
  fst (Tag_Set tag v db) = Some e ->
  table (snd (Tag_Set tag v db)) = table db.
Proof.
  apply Tag_Set_error.
Qed.

(** X5: a [Delete] that returns an error, whichever call failed, has not
    changed the table. *)
Theorem Delete_error_changes_nothing (tag : Tag) (db : DB) (e : error) :
  fst (Tag_Delete tag db) = Some e ->
  table (snd (Tag_Delete tag db)) = table db.
Proof.
  apply Tag_Delete_error.
Qed.

(** X6: [Get] and [Tags] read only: whatever the store does and whatever
    they return, the table and the open transaction are as before. *)
Theorem Get_and_Tags_read_only (tag : Tag) (bag : TagBag) (out : Json.slot)
        (db : DB) :
  table (snd (Tag_Get tag out db)) = table db /\
  pending (snd (Tag_Get tag out db)) = pending db /\
  table (snd (TagBag_Tags bag db)) = table db /\
  pending (snd (TagBag_Tags bag db)) = pending db.
Proof.
  destruct (Tag_Get_frame tag out db) as [H1 H2].
  destruct (TagBag_Tags_frame bag db) as [H3 H4].
  repeat split; assumption.
Qed.

(** X7: on a store without failures [Tags] lists a name exactly when the
    tag of that name in the bag has a row, that is, when [Get] on
    [bag.Tag(name)] can find one; it lists nothing when the pair has no
    row. *)
Theorem Tags_lists_the_tags_with_a_row (bag : TagBag) (db : DB) :
  faults db = [] ->
  exists names,
    TagBag_Tags bag db = (Ok names, db) /\
    (forall k, In k names <-> absent (TagBag_Tag bag k) db = false) /\
    (filter (in_bag (bag_universe bag) (bag_entity bag)) (table db) = [] ->
     names = []).
Proof.
  intros Hf. exists (names_of bag db).
  split; [apply TagBag_Tags_healthy; exact Hf|]. split.
  - intros k. rewrite In_names_of. unfold absent, row_of, TagBag_Tag.
    cbn [universe entity key]. rewrite negb_false_iff. tauto.
  - intros E. unfold names_of, scan_rows, tags_id_range. rewrite E.
    destruct (plan db); reflexivity.
Qed.

(** X8: the writes never make a second row for a triple.  When no two rows
    of the table share a triple or an id, that is still so after any
    sequence of [Set] and [Delete] calls, whatever fails in between, and
    every triple has one row at most. *)
Theorem writes_keep_rows_unique (ws : list write) (db : DB) :
  unique_rows (table db) ->
  unique_rows (table (run ws db)) /\
  forall tag, (List.length (stored tag (run ws db)) <= 1)%nat.
Proof.
  revert db. induction ws as [|w ws IH]; intros db H.
  - split; [exact H|]. intros tag. apply unique_rows_select. exact H.
  - destruct w as [tag v|tag]; simpl; apply IH.
    + apply unique_rows_Set. exact H.
    + apply unique_rows_Delete. exact H.
Qed.

(** X9: the writes never store SQL NULL.  When no row of the table holds
    NULL, none does after any sequence of [Set] and [Delete] calls,
    whatever fails in between; on a store without failures an error of
    [Get] is then an error of [json.Unmarshal] on a stored text, never that
    of a NULL value. *)
Theorem writes_store_no_NULL (ws : list write) (db : DB) :
  Forall (fun r => value r <> None) (table db) ->
  Forall (fun r => value r <> None) (table (run ws db)) /\
  (faults (run ws db) = [] ->
   forall tag out e,
     snd (fst (fst (Tag_Get tag out (run ws db)))) = Some e ->
     exists raw out',
       In (Some raw) (stored tag (run ws db)) /\
       Json.Unmarshal (list_ascii_of_string raw) out = (out', Some e)).
Proof.
  intros H.
  assert (K : Forall (fun r => value r <> None) (table (run ws db))).
  { revert db H. induction ws as [|w ws IH]; intros db H; [exact H|].
    destruct w as [tag v|tag]; simpl; apply IH.
    - apply not_null_Set. exact H.
    - apply not_null_Delete. exact H. }
  split; [exact K|]. intros Hf tag out e.
  rewrite Tag_Get_healthy by exact Hf. unfold stored.
  destruct (select_value (universe tag) (entity tag) (key tag)
              (table (run ws db))) as [|[raw|] rest] eqn:E.
  - discriminate.
  - destruct (Json.Unmarshal (list_ascii_of_string raw) out) as [o [e'|]] eqn:U;
      cbn [fst snd]; [|discriminate].
    intros [= ->]. exists raw, o. split; [left; reflexivity|exact U].
  - exfalso. unfold select_value in E.
    assert (Hin : In None (map value
                     (filter (is_tag (universe tag) (entity tag) (key tag))
                             (table (run ws db)))))
      by (rewrite E; left; reflexivity).
    apply in_map_iff in Hin. destruct Hin as (r & Er & Hr).
    apply filter_In in Hr. rewrite Forall_forall in K.
    exact (K r (proj1 Hr) Er).
Qed.

(** X10: [Set] of the same value twice is [Set] once: on a store without
    failures the second call returns what the first returned and leaves
    the table of the first. *)
Theorem Set_twice (tag : Tag) (v : Json.any) (db : DB) :
  faults db = [] ->
  let db1 := snd (Tag_Set tag v db) in
  fst (Tag_Set tag v db1) = fst (Tag_Set tag v db) /\
  table (snd (Tag_Set tag v db1)) = table db1.
Proof.
  intros Hf db1. subst db1.
  destruct (Json.Marshal v) as [raw|e] eqn:M.
  - rewrite (Tag_Set_healthy tag v raw db Hf M). cbn [snd fst].
    erewrite (Tag_Set_healthy tag v raw); [|reflexivity|exact M].
    cbn [snd fst table]. split; [reflexivity|apply upsert_upsert].
  - unfold Tag_Set. rewrite M. split; reflexivity.
Qed.

(** X11: when [Marshal] accepts the value, [Set] returns the error of the
    first of [Begin], [Prepare] and [Exec] that fails, and the table is
    as before. *)
Theorem Set_reports_failures (tag : Tag) (v : Json.any) (raw : bytes)
        (db : DB) (i : nat) (e : error) (rest : list (option error)) :
  Json.Marshal v = Ok raw -> (i <= 2)%nat ->
  faults db = (repeat None i ++ Some e :: rest)%list ->
  fst (Tag_Set tag v db) = Some e /\
  table (snd (Tag_Set tag v db)) = table db.
Proof.
  intros M Hi Hf. destruct db as [t p f pl]. cbn [faults] in Hf. subst f.
  unfold Tag_Set. rewrite M.
  destruct i as [|[|[|i]]]; [| | |lia]; repeat split.
Qed.

(** X12: [Delete] returns the error of the first of [Begin], [Prepare] and
    [Exec] that fails, and the table is as before. *)
Theorem Delete_reports_failures (tag : Tag) (db : DB) (i : nat) (e : error)
        (rest : list (option error)) :
  (i <= 2)%nat -> faults db = (repeat None i ++ Some e :: rest)%list ->
  fst (Tag_Delete tag db) = Some e /\
  table (snd (Tag_Delete tag db)) = table db.
Proof.
  intros Hi Hf. destruct db as [t p f pl]. cbn [faults] in Hf. subst f.
  destruct i as [|[|[|i]]]; [| | |lia]; repeat split.
Qed.

(** X13: [Get] and [Tags] return the error of [Prepare] or [Query] when
    one of them fails; [Get] then returns [false] and leaves the
    variable. *)
Theorem Get_and_Tags_report_failures (tag : Tag) (bag : TagBag)
        (out : Json.slot) (db : DB) (i : nat) (e : error)
        (rest : list (option error)) :
  (i <= 1)%nat -> faults db = (repeat None i ++ Some e :: rest)%list ->
  fst (Tag_Get tag out db) = (false, Some e, out) /\
  fst (TagBag_Tags bag db) = Err e.
Proof.
  intros Hi Hf. destruct db as [t p f pl]. cbn [faults] in Hf. subst f.
  destruct i as [|[|i]]; [| |lia]; split; reflexivity.
Qed.

(** X14: a row that [Get] cannot decode.  On a store without failures,
    when the value of the row is NULL [Get] returns [false] and the error
    of [Scan], and when its text is not JSON, [false] and a syntax error;
    the variable and the store are as before. *)
Theorem Get_undecodable (tag : Tag) (out : Json.slot) (db : DB)
        (x : option string) (rest : list (option string)) :
  faults db = [] -> stored tag db = x :: rest ->
  match x with
  | None => Tag_Get tag out db = (false, Some ScanNullError, out, db)
  | Some raw =>
      Json.parse (list_ascii_of_string raw) = None ->
      Tag_Get tag out db = (false, Some SyntaxError, out, db)
  end.
Proof.
  intros Hf Hs. rewrite (Tag_Get_healthy tag out db Hf).
  unfold stored in Hs. rewrite Hs. destruct x as [raw|]; [|reflexivity].
  intros Hp. unfold Json.Unmarshal. rewrite Hp. reflexivity.
Qed.


(** X16: what [Set] and [Delete] do to the listing.  On a store without
    failures, after [Set] of a value that [Marshal] accepts on a tag of the
    bag, [Tags] lists the key of the tag and the names it listed before;
    after [Delete] it lists the names it listed before but the key. *)
Theorem Tags_after_write (bag : TagBag) (k : string) (v : Json.any)
        (raw : bytes) (db : DB) :
  faults db = [] -> Json.Marshal v = Ok raw ->
  let tag := TagBag_Tag bag k in
  exists names after_set after_delete,
    fst (TagBag_Tags bag db) = Ok names /\
    fst (TagBag_Tags bag (snd (Tag_Set tag v db))) = Ok after_set /\
    fst (TagBag_Tags bag (snd (Tag_Delete tag db))) = Ok after_delete /\
    (forall k', In k' after_set <-> k' = k \/ In k' names) /\
    (forall k', In k' after_delete <-> k' <> k /\ In k' names).
Proof.
  intros Hf Hm tag.
  exists (names_of bag db), (names_of bag (snd (Tag_Set tag v db))),
    (names_of bag (snd (Tag_Delete tag db))).
  rewrite !TagBag_Tags_healthy;
    [|apply Tag_Delete_faults; exact Hf|apply Tag_Set_faults; exact Hf
     |exact Hf].
  split; [reflexivity|]. split; [reflexivity|]. split; [reflexivity|].
  split; intros k'; rewrite !In_names_of.
  - rewrite (Tag_Set_healthy tag v raw db Hf Hm). cbn [snd table].
    subst tag. unfold TagBag_Tag. cbn [universe entity key].
    rewrite existsb_upsert. split; intros [H|H]; try tauto.
    + left. congruence.
    + left. congruence.
  - rewrite (Tag_Delete_healthy tag db Hf). cbn [snd table].
    subst tag. unfold TagBag_Tag. cbn [universe entity key].
    rewrite existsb_delete. split; intros [H1 H2]; split; try assumption.
    + congruence.
    + congruence.
Qed.

(** X17: whatever the store does, [Set] and [Delete] on a tag of one
    universe and entity leave the rows of every other pair, in their
    order; on a store without failures [Tags] of another bag returns the
    same list after them. *)
Theorem writes_leave_other_bags (tag : Tag) (bag : TagBag) (v : Json.any)
        (db : DB) :
  (bag_universe bag, bag_entity bag) <> (universe tag, entity tag) ->
  let rows_of := filter (in_bag (bag_universe bag) (bag_entity bag)) in
  rows_of (table (snd (Tag_Set tag v db))) = rows_of (table db) /\
  rows_of (table (snd (Tag_Delete tag db))) = rows_of (table db) /\
  (faults db = [] ->
   fst (TagBag_Tags bag (snd (Tag_Set tag v db))) = fst (TagBag_Tags bag db) /\
   fst (TagBag_Tags bag (snd (Tag_Delete tag db))) = fst (TagBag_Tags bag db)).
Proof.
  intros N rows_of. subst rows_of.
  assert (H1 : filter (in_bag (bag_universe bag) (bag_entity bag))
                 (table (snd (Tag_Set tag v db))) =
               filter (in_bag (bag_universe bag) (bag_entity bag)) (table db)).
  { destruct (Tag_Set_table tag v db) as [E|(raw & E)]; rewrite E;
      [reflexivity|apply filter_in_bag_upsert_other; exact N]. }
  assert (H2 : filter (in_bag (bag_universe bag) (bag_entity bag))
                 (table (snd (Tag_Delete tag db))) =
               filter (in_bag (bag_universe bag) (bag_entity bag)) (table db)).
  { destruct (Tag_Delete_table tag db) as [E|E]; rewrite E;
      [reflexivity|apply filter_in_bag_delete_other; exact N]. }
  split; [exact H1|]. split; [exact H2|]. intros Hf.
  rewrite (TagBag_Tags_healthy bag db Hf).
  rewrite (TagBag_Tags_healthy bag (snd (Tag_Set tag v db)))
    by (apply Tag_Set_faults; exact Hf).
  rewrite (TagBag_Tags_healthy bag (snd (Tag_Delete tag db)))
    by (apply Tag_Delete_faults; exact Hf).
  cbn [fst]. unfold names_of, scan_rows, tags_id_range.
  rewrite Tag_Set_plan, Tag_Delete_plan, H1, H2. split; reflexivity.
Qed.

(** X18: on a store without failures whose rows have different triples,
    [Tags] lists no name twice. *)
Theorem Tags_lists_no_name_twice (bag : TagBag) (db : DB) :
  faults db = [] -> unique_rows (table db) ->
  exists names, TagBag_Tags bag db = (Ok names, db) /\ NoDup names.
Proof.
  intros Hf [Hu _]. exists (names_of bag db).
  split; [apply TagBag_Tags_healthy; exact Hf|].
  unfold names_of.
  apply (Permutation_NoDup
           (l := map Sql.key
                     (filter (in_bag (bag_universe bag) (bag_entity bag))
                             (table db)))).
  - apply Permutation_map, Permutation_sym, scan_rows_perm.
  - apply NoDup_keys_in_bag. exact Hu.
Qed.

(** * The further theorems at the data of the tests *)

Lemma Set_leaves_other_tags_witness :
  tag_of "number" <> tag_of "string" /\
  stored (tag_of "number")
         (snd (Tag_Set (tag_of "string") (Json.VString "world")
                       (store string_number))) =
  stored (tag_of "number") (store string_number) /\
  (faults (store string_number) = [] ->
   fst (Tag_Get (tag_of "number") (var Json.TInt (Json.VInt 0))
                (snd (Tag_Set (tag_of "string") (Json.VString "world")
                              (store string_number)))) =
   fst (Tag_Get (tag_of "number") (var Json.TInt (Json.VInt 0))
                (store string_number))).
Proof.
  split; [vm_compute; discriminate|].
  apply (Set_leaves_other_tags (tag_of "string") (tag_of "number")
           (Json.VString "world") (var Json.TInt (Json.VInt 0))
           (store string_number)).
  vm_compute; discriminate.
Defined.

Lemma Delete_leaves_other_tags_witness :
  tag_of "number" <> tag_of "string" /\
  stored (tag_of "number")
         (snd (Tag_Delete (tag_of "string") (store string_number))) =
  stored (tag_of "number") (store string_number) /\
  (faults (store string_number) = [] ->
   fst (Tag_Get (tag_of "number") (var Json.TInt (Json.VInt 0))
                (snd (Tag_Delete (tag_of "string") (store string_number)))) =
   fst (Tag_Get (tag_of "number") (var Json.TInt (Json.VInt 0))
                (store string_number))).
Proof.
  split; [vm_compute; discriminate|].
  apply (Delete_leaves_other_tags (tag_of "string") (tag_of "number")
           (var Json.TInt (Json.VInt 0)) (store string_number)).
  vm_compute; discriminate.
Defined.

Lemma Set_Delete_Get_witness :
  faults (store string_number) = [] /\
  table (snd (Tag_Delete (tag_of "bool")
                (snd (Tag_Set (tag_of "bool") (Json.VBool true)
                              (store string_number))))) =
  string_number /\
  Tag_Get (tag_of "bool") (var Json.TBool (Json.VBool false))
          (snd (Tag_Delete (tag_of "bool")
                  (snd (Tag_Set (tag_of "bool") (Json.VBool true)
                                (store string_number))))) =
  (false, None, var Json.TBool (Json.VBool false),
   snd (Tag_Delete (tag_of "bool")
          (snd (Tag_Set (tag_of "bool") (Json.VBool true)
                        (store string_number))))).
Proof.
  split; [reflexivity|].
  pose proof (Set_Delete_Get (tag_of "bool") (Json.VBool true)
                (var Json.TBool (Json.VBool false)) (store string_number)
                eq_refl) as H.
  cbv zeta in H. destruct H as (_ & H1 & H2).
  split; [exact (H1 eq_refl)|exact H2].
Defined.

Lemma Set_error_changes_nothing_witness :
  fst (Tag_Set (tag_of "string") (Json.VString "world")
               (failing [None; None; Some (DriverError 1)] string_number)) =
  Some (DriverError 1) /\
  table (snd (Tag_Set (tag_of "string") (Json.VString "world")
                (failing [None; None; Some (DriverError 1)] string_number))) =
  string_number.
Proof.
  split; [reflexivity|].
  apply (Set_error_changes_nothing (tag_of "string") (Json.VString "world")
           (failing [None; None; Some (DriverError 1)] string_number)
           (DriverError 1)).
  reflexivity.
Defined.

Lemma Delete_error_changes_nothing_witness :
  fst (Tag_Delete (tag_of "string")
         (failing [None; None; Some (DriverError 1)] string_number)) =
  Some (DriverError 1) /\
  table (snd (Tag_Delete (tag_of "string")
                (failing [None; None; Some (DriverError 1)] string_number))) =
  string_number.
Proof.
  split; [reflexivity|].
  apply (Delete_error_changes_nothing (tag_of "string")
           (failing [None; None; Some (DriverError 1)] string_number)
           (DriverError 1)).
  reflexivity.
Defined.

Lemma Tags_lists_the_tags_with_a_row_witness :
  faults (store string_number) = [] /\
  exists names,
    TagBag_Tags bag (store string_number) = (Ok names, store string_number) /\
    (forall k, In k names <->
               absent (TagBag_Tag bag k) (store string_number) = false).
Proof.
  split; [reflexivity|].
  destruct (Tags_lists_the_tags_with_a_row bag (store string_number) eq_refl)
    as (names & H1 & H2 & _).
  exists names. split; [exact H1|exact H2].
Defined.

Lemma writes_keep_rows_unique_witness :
  unique_rows (table (store string_number)) /\
  unique_rows (table (run some_writes (store string_number))) /\
  forall tag,
    (List.length (stored tag (run some_writes (store string_number))) <= 1)%nat.
Proof.
  assert (U : unique_rows (table (store string_number))).
  { split; repeat constructor; simpl; intuition discriminate. }
  split; [exact U|].
  exact (writes_keep_rows_unique some_writes (store string_number) U).
Defined.

Lemma writes_store_no_NULL_witness :
  Forall (fun r => value r <> None) (table (store string_number)) /\
  Forall (fun r => value r <> None)
         (table (run some_writes (store string_number))).
Proof.
  assert (N : Forall (fun r => value r <> None) (table (store string_number))).
  { repeat constructor; simpl; discriminate. }
  split; [exact N|].
  exact (proj1 (writes_store_no_NULL some_writes (store string_number) N)).
Defined.

Lemma Set_twice_witness :
  faults (store string_number) = [] /\
  fst (Tag_Set (tag_of "bool") (Json.VBool true)
         (snd (Tag_Set (tag_of "bool") (Json.VBool true)
                       (store string_number)))) =
  fst (Tag_Set (tag_of "bool") (Json.VBool true) (store string_number)) /\
  table (snd (Tag_Set (tag_of "bool") (Json.VBool true)
                (snd (Tag_Set (tag_of "bool") (Json.VBool true)
                              (store string_number))))) =
  table (snd (Tag_Set (tag_of "bool") (Json.VBool true)
                      (store string_number))).
Proof.
  split; [reflexivity|].
  exact (Set_twice (tag_of "bool") (Json.VBool true) (store string_number)
                   eq_refl).
Defined.

Lemma Set_reports_failures_witness :
  Json.Marshal (Json.VString "world") =
  Ok (list_ascii_of_string (quoted "world")) /\
  (2 <= 2)%nat /\
  faults (failing [None; None; Some (DriverError 1); None] string_number) =
  (repeat None 2 ++ Some (DriverError 1) :: [None])%list /\
  fst (Tag_Set (tag_of "string") (Json.VString "world")
         (failing [None; None; Some (DriverError 1); None] string_number)) =
  Some (DriverError 1) /\
  table (snd (Tag_Set (tag_of "string") (Json.VString "world")
                (failing [None; None; Some (DriverError 1); None]
                         string_number))) =
  string_number.
Proof.
  split; [reflexivity|]. split; [lia|]. split; [reflexivity|].
  apply (Set_reports_failures (tag_of "string") (Json.VString "world")
           (list_ascii_of_string (quoted "world"))
           (failing [None; None; Some (DriverError 1); None] string_number)
           2%nat (DriverError 1) [None]); [reflexivity|lia|reflexivity].
Defined.

Lemma Delete_reports_failures_witness :
  (1 <= 2)%nat /\
  faults (failing [None; Some (DriverError 1)] string_number) =
  (repeat None 1 ++ Some (DriverError 1) :: [])%list /\
  fst (Tag_Delete (tag_of "string")
         (failing [None; Some (DriverError 1)] string_number)) =
  Some (DriverError 1) /\
  table (snd (Tag_Delete (tag_of "string")
                (failing [None; Some (DriverError 1)] string_number))) =
  string_number.
Proof.
  split; [lia|]. split; [reflexivity|].
  apply (Delete_reports_failures (tag_of "string")
           (failing [None; Some (DriverError 1)] string_number)
           1%nat (DriverError 1) []); [lia|reflexivity].
Defined.

Lemma Get_and_Tags_report_failures_witness :
  (1 <= 1)%nat /\
  faults (failing [None; Some (DriverError 1)] string_number) =
  (repeat None 1 ++ Some (DriverError 1) :: [])%list /\
  fst (Tag_Get (tag_of "string") (var Json.TString (Json.VString "x"))
         (failing [None; Some (DriverError 1)] string_number)) =
  (false, Some (DriverError 1), var Json.TString (Json.VString "x")) /\
  fst (TagBag_Tags bag (failing [None; Some (DriverError 1)] string_number)) =
  Err (DriverError 1).
Proof.
  split; [lia|]. split; [reflexivity|].
  apply (Get_and_Tags_report_failures (tag_of "string") bag
           (var Json.TString (Json.VString "x"))
           (failing [None; Some (DriverError 1)] string_number)
           1%nat (DriverError 1) []); [lia|reflexivity].
Defined.

Lemma Get_undecodable_witness :
  faults (store [null_row 1 "string"]) = [] /\
  stored (tag_of "string") (store [null_row 1 "string"]) = [None] /\
  Tag_Get (tag_of "string") (var Json.TString (Json.VString "x"))
          (store [null_row 1 "string"]) =
  (false, Some ScanNullError, var Json.TString (Json.VString "x"),
   store [null_row 1 "string"]) /\
  faults (store [row 1 "string" "hello"]) = [] /\
  stored (tag_of "string") (store [row 1 "string" "hello"]) =
  [Some "hello"] /\
  Json.parse (list_ascii_of_string "hello") = None /\
  Tag_Get (tag_of "string") (var Json.TString (Json.VString "x"))
          (store [row 1 "string" "hello"]) =
  (false, Some SyntaxError, var Json.TString (Json.VString "x"),
   store [row 1 "string" "hello"]).
Proof.
  split; [reflexivity|]. split; [reflexivity|].
  split;
    [exact (Get_undecodable (tag_of "string")
              (var Json.TString (Json.VString "x"))
              (store [null_row 1 "string"]) None [] eq_refl eq_refl)|].
  split; [reflexivity|]. split; [reflexivity|]. split; [reflexivity|].
  exact (Get_undecodable (tag_of "string")
           (var Json.TString (Json.VString "x"))
           (store [row 1 "string" "hello"]) (Some "hello") []
           eq_refl eq_refl eq_refl).
Defined.


Lemma Tags_after_write_witness :
  faults (store string_number) = [] /\
  Json.Marshal (Json.VBool true) = Ok (list_ascii_of_string "true") /\
  exists names after_set after_delete,
    fst (TagBag_Tags bag (store string_number)) = Ok names /\
    fst (TagBag_Tags bag
           (snd (Tag_Set (TagBag_Tag bag "bool") (Json.VBool true)
                         (store string_number)))) = Ok after_set /\
    fst (TagBag_Tags bag
           (snd (Tag_Delete (TagBag_Tag bag "bool") (store string_number)))) =
    Ok after_delete /\
    (forall k', In k' after_set <-> k' = "bool" \/ In k' names) /\
    (forall k', In k' after_delete <-> k' <> "bool" /\ In k' names).
Proof.
  split; [reflexivity|]. split; [reflexivity|].
  exact (Tags_after_write bag "bool" (Json.VBool true)
           (list_ascii_of_string "true") (store string_number)
           eq_refl eq_refl).
Defined.

Lemma writes_leave_other_bags_witness :
  (bag_universe other_bag, bag_entity other_bag) <>
  (universe (tag_of "string"), entity (tag_of "string")) /\
  filter (in_bag (bag_universe other_bag) (bag_entity other_bag))
         (table (snd (Tag_Set (tag_of "string") (Json.VString "world")
                              (store two_entities)))) =
  [other_row 2 "string" (quoted "red"); other_row 4 "colour" (quoted "blue")] /\
  filter (in_bag (bag_universe other_bag) (bag_entity other_bag))
         (table (snd (Tag_Delete (tag_of "string") (store two_entities)))) =
  [other_row 2 "string" (quoted "red"); other_row 4 "colour" (quoted "blue")] /\
  fst (TagBag_Tags other_bag
         (snd (Tag_Set (tag_of "string") (Json.VString "world")
                       (store two_entities)))) =
  Ok ["colour"; "string"] /\
  fst (TagBag_Tags other_bag
         (snd (Tag_Delete (tag_of "string") (store two_entities)))) =
  Ok ["colour"; "string"].
Proof.
  assert (N : (bag_universe other_bag, bag_entity other_bag) <>
              (universe (tag_of "string"), entity (tag_of "string"))).
  { vm_compute; discriminate. }
  split; [exact N|].
  pose proof (writes_leave_other_bags (tag_of "string") other_bag
                (Json.VString "world") (store two_entities) N) as H.
  cbv zeta in H. destruct H as (H1 & H2 & H3).
  destruct (H3 eq_refl) as [H4 H5].
  split; [rewrite H1; reflexivity|]. split; [rewrite H2; reflexivity|].
  split; [rewrite H4; reflexivity|rewrite H5; reflexivity].
Defined.

Lemma Tags_lists_no_name_twice_witness :
  faults (store string_number) = [] /\
  unique_rows (table (store string_number)) /\
  exists names,
    TagBag_Tags bag (store string_number) = (Ok names, store string_number) /\
    NoDup names.
Proof.
  assert (U : unique_rows (table (store string_number))).
  { split; repeat constructor; simpl; intuition discriminate. }
  split; [reflexivity|]. split; [exact U|].
  exact (Tags_lists_no_name_twice bag (store string_number) eq_refl U).
Defined.
